(** * Echo Chamber: arithmetic-progression predictor with a prediction history

    A shallow embedding of the [EchoChamber] class and of the built-in tests
    of [EchoChamberUI] (echo-chamber/index.js), and of the request handlers
    of the web server (echo-chamber/server.js).

    - JavaScript numbers are IEEE 754 binary64 values: [spec_float] of the
      Standard Library with [prec = 53] and [emax = 1024]; [-], [+] and [===]
      on numbers are [SFsub], [SFadd] and [SFeqb].
    - The instance fields [echoMemories] and [predictionCount] are threaded
      explicitly: a method takes the instance and returns its result together
      with the instance afterwards.
    - [new Date().toLocaleTimeString()] is an input of [predictNext].
    - An array is the list of its elements (no holes), as JSON bodies, the
      console parser and the literals of the test suite produce them.
    - The template literal of the success message is kept as a constructor
      holding the number, not rendered to text.
    - [predictionCount] holds a small non-negative integer (an array has fewer
      than 2^32 elements, far below 2^53 where doubles stop being exact), so it
      is a [Z]. *)

From Stdlib Require Import ZArith List Ascii String Bool Lia SpecFloat.
Import ListNotations.

Local Open Scope string_scope.
Local Open Scope list_scope.

(** ** JavaScript values *)

Module JS.

Definition number : Type := spec_float.

Definition prec : Z := 53.
Definition emax : Z := 1024.

Definition NaN : number := S754_nan.
Definition Infinity : number := S754_infinity false.

(** [x - y], [x + y] and [x === y] on numbers. *)
Definition sub (x y : number) : number := SFsub prec emax x y.
Definition add (x y : number) : number := SFadd prec emax x y.
Definition strict_eq (x y : number) : bool := SFeqb x y.

(** An integer literal such as [3] or [-2]. *)
Definition of_Z (z : Z) : number := binary_normalize prec emax z 0 false.

Definition is_nan (x : number) : bool :=
  match x with S754_nan => true | _ => false end.

(** A finite number: neither NaN nor an infinity. *)
Definition is_finite (x : number) : bool :=
  match x with
  | S754_zero _ | S754_finite _ _ _ => true
  | S754_infinity _ | S754_nan => false
  end.

#[warnings="-register-all"] Inductive value : Type :=
| Undefined
| Null
| Boolean (b : bool)
| Number (n : number)
| String (s : string)
| Array (elems : list value)
| Object (fields : list (string * value)).

Definition typeof (v : value) : string :=
  match v with
  | Undefined => "undefined"
  | Boolean _ => "boolean"
  | Number _ => "number"
  | String _ => "string"
  | Null | Array _ | Object _ => "object"
  end.

(** [Array.isArray(v)] *)
Definition isArray (v : value) : bool :=
  match v with Array _ => true | _ => false end.

(** [!v] is false exactly on the truthy values. *)
Definition truthy (v : value) : bool :=
  match v with
  | Undefined | Null => false
  | Boolean b => b
  | Number n =>
      match n with
      | S754_zero _ | S754_nan => false
      | _ => true
      end
  | String s => negb (String.eqb s "")
  | Array _ | Object _ => true
  end.

End JS.

Import JS.

(** ** The EchoChamber class *)

Record ValidationResult : Type := {
  isValid : bool;
  difference : option number;     (* [None]: null (or undefined) *)
  v_message : string
}.

(** The message of a prediction: the validation's message on failure, the
    template literal of [predictNext] on success. *)
Inductive message : Type :=
| Text (s : string)
| NextNumberIs (n : number).
    (* `✓ The next number in the sequence is: ${n}` *)

Record Prediction : Type := {
  success : bool;
  nextNumber : option number;         (* [None]: null *)
  commonDifference : option number;   (* [None]: the key is absent *)
  p_message : message
}.

Record Memory : Type := {
  sequence : list value;
  m_nextNumber : number;
  m_commonDifference : option number;
  timestamp : string;
  predictionIndex : Z
}.

Record EchoChamber : Type := {
  echoMemories : list Memory;
  predictionCount : Z
}.

(** [new EchoChamber()] *)
Definition new_EchoChamber : EchoChamber :=
  {| echoMemories := []; predictionCount := 0 |}.

Definition msg_not_array : string := "❌ Error: Input must be an array".
Definition msg_too_short : string :=
  "❌ Error: Sequence must contain at least 2 numbers".
Definition msg_not_numbers : string :=
  "❌ Error: All elements must be valid numbers".
Definition msg_not_arithmetic : string :=
  "❌ Error: This is not an arithmetic progression. The differences between consecutive numbers are not constant.".
Definition msg_valid : string := "✓ Valid arithmetic progression detected!".

Definition invalid (msg : string) : ValidationResult :=
  {| isValid := false; difference := None; v_message := msg |}.

(** [typeof num === 'number' && !isNaN(num)]; [isNaN] is only reached on a
    number, where it is [is_nan]. *)
Definition valid_number (num : value) : bool :=
  String.eqb (typeof num) "number" &&
  match num with
  | Number n => negb (is_nan n)
  | _ => false
  end.

(** The elements of an array that are numbers.  Behind the [every] guard of
    [validateSequence] these are all the elements ([numbers_map_Number]). *)
Fixpoint numbers (elems : list value) : list number :=
  match elems with
  | [] => []
  | Number n :: rest => n :: numbers rest
  | _ :: rest => numbers rest
  end.

(** The loop [for (i = 1; i < length; i++) differences.push(s[i] - s[i-1])]. *)
Fixpoint differences (s : list number) : list number :=
  match s with
  | prev :: (cur :: _) as rest => sub cur prev :: differences rest
  | _ => []
  end.

(** [d === firstDifference], where [firstDifference] is [undefined] when the
    list of differences is empty. *)
Definition same_as (firstDifference : option number) (d : number) : bool :=
  match firstDifference with
  | Some f => strict_eq d f
  | None => false
  end.

(** The elements of an array, as [sequence.every], [sequence[i]] and
    [[...sequence]] read them. *)
Definition spread (sequence : value) : list value :=
  match sequence with
  | Array elems => elems
  | _ => []
  end.

(** [validateSequence(sequence)] *)
Definition validateSequence (sequence : value) (this : EchoChamber)
  : ValidationResult * EchoChamber :=
  (if negb (isArray sequence) then invalid msg_not_array
   else
     let elems := spread sequence in
     if (List.length elems <? 2)%nat then invalid msg_too_short
     else if negb (forallb valid_number elems) then invalid msg_not_numbers
     else
       let diffs := differences (numbers elems) in
       let firstDifference := nth_error diffs 0 in
       let isArithmetic := forallb (same_as firstDifference) diffs in
       if negb isArithmetic then invalid msg_not_arithmetic
       else {| isValid := true;
               difference := firstDifference;
               v_message := msg_valid |},
   this).

(** [sequence[sequence.length - 1] + validation.difference]; an operand that
    is [undefined] makes the sum NaN. *)
Definition last_plus (s : list number) (d : option number) : number :=
  match nth_error s (List.length s - 1), d with
  | Some l, Some d => add l d
  | _, _ => NaN
  end.

(** [predictNext(sequence)]; [now] is [new Date().toLocaleTimeString()]. *)
Definition predictNext (sequence : value) (now : string) (this : EchoChamber)
  : Prediction * EchoChamber :=
  let (validation, this) := validateSequence sequence this in
  if negb (isValid validation) then
    ({| success := false;
        nextNumber := None;
        commonDifference := None;
        p_message := Text (v_message validation) |}, this)
  else
    let next := last_plus (numbers (spread sequence)) (difference validation) in
    let memory := {| sequence := spread sequence;
                     m_nextNumber := next;
                     m_commonDifference := difference validation;
                     timestamp := now;
                     predictionIndex := predictionCount this + 1 |} in
    ({| success := true;
        nextNumber := Some next;
        commonDifference := difference validation;
        p_message := NextNumberIs next |},
     {| echoMemories := echoMemories this ++ [memory];
        predictionCount := predictionCount this + 1 |}).

(** [getMemories()] returns the array held by the instance. *)
Definition getMemories (this : EchoChamber) : list Memory * EchoChamber :=
  (echoMemories this, this).

(** [clearMemories()] *)
Definition clearMemories (this : EchoChamber) : EchoChamber :=
  {| echoMemories := []; predictionCount := 0 |}.

(** ** Sequences of method calls on one instance *)

Inductive call : Type :=
| Call_validateSequence (sequence : value)
| Call_predictNext (sequence : value) (now : string)
| Call_getMemories
| Call_clearMemories.

Definition run_call (c : call) (this : EchoChamber) : EchoChamber :=
  match c with
  | Call_validateSequence s => snd (validateSequence s this)
  | Call_predictNext s now => snd (predictNext s now this)
  | Call_getMemories => snd (getMemories this)
  | Call_clearMemories => clearMemories this
  end.

Definition run_calls (cs : list call) (this : EchoChamber) : EchoChamber :=
  fold_left (fun this c => run_call c this) cs this.

Definition is_clear (c : call) : bool :=
  match c with Call_clearMemories => true | _ => false end.

(** No call of the list is [clearMemories]. *)
Definition no_clear (cs : list call) : bool := forallb (fun c => negb (is_clear c)) cs.

(** Whether a call is a [predictNext] that returns [success: true] on the
    instance it is made on. *)
Definition succeeds (c : call) (this : EchoChamber) : bool :=
  match c with
  | Call_predictNext s now => success (fst (predictNext s now this))
  | _ => false
  end.

(** The input of a call of [predictNext]: the elements of its argument and
    the clock reading. *)
Definition input_of (c : call) : list (list value * string) :=
  match c with
  | Call_predictNext s now => [(spread s, now)]
  | _ => []
  end.

(** The inputs of the calls that succeed while [cs] runs from [this], in
    call order. *)
Fixpoint successes (cs : list call) (this : EchoChamber)
  : list (list value * string) :=
  match cs with
  | [] => []
  | c :: rest =>
      (if succeeds c this then input_of c else [])
        ++ successes rest (run_call c this)
  end.

(** ** The web server (server.js)

    [chamber] is the module-level instance shared by all requests.  A request
    carries the [sequence] property of its JSON body ([Undefined] when the
    property is missing).  No handler body can throw on these inputs, so the
    [catch] branches (status 500) are never taken. *)

Module Server.

Inductive request : Type :=
| POST_predict (sequence : value)
| GET_memories
| DELETE_memories
| POST_validate (sequence : value)
| GET_test
| Unknown_route.

Inductive body : Type :=
| Json_prediction (p : Prediction)
| Json_memories (memories : list Memory) (count : Z)
| Json_success (success : bool) (message : string)
| Json_validation (v : ValidationResult)
| Json_isValid (isValid : bool) (message : string)
| Json_test (success : bool) (result : Prediction) (message : string).

Record response : Type := { status : Z; json : body }.

Definition test_sequence : value :=
  Array [Number (of_Z 3); Number (of_Z 6); Number (of_Z 9); Number (of_Z 12)].

Definition handle (req : request) (now : string) (chamber : EchoChamber)
  : response * EchoChamber :=
  match req with
  | POST_predict sequence =>
      if negb (truthy sequence) then
        ({| status := 400;
            json := Json_success false "Sequence is required" |}, chamber)
      else
        let (result, chamber) := predictNext sequence now chamber in
        ({| status := 200; json := Json_prediction result |}, chamber)
  | GET_memories =>
      let (memories, chamber) := getMemories chamber in
      ({| status := 200;
          json := Json_memories memories (Z.of_nat (List.length memories)) |},
       chamber)
  | DELETE_memories =>
      ({| status := 200;
          json := Json_success true "All memories have been cleared" |},
       clearMemories chamber)
  | POST_validate sequence =>
      if negb (truthy sequence) then
        ({| status := 400;
            json := Json_isValid false "Sequence is required" |}, chamber)
      else
        let (result, chamber) := validateSequence sequence chamber in
        ({| status := 200; json := Json_validation result |}, chamber)
  | GET_test =>
      let testChamber := new_EchoChamber in
      let (result, _) := predictNext test_sequence now testChamber in
      ({| status := 200;
          json := Json_test (success result) result
                    "Server is working correctly" |}, chamber)
  | Unknown_route =>
      ({| status := 404;
          json := Json_success false "Endpoint not found" |}, chamber)
  end.

(** Requests served one after the other, each with its clock reading. *)
Fixpoint serve (reqs : list (request * string)) (chamber : EchoChamber)
  : list response * EchoChamber :=
  match reqs with
  | [] => ([], chamber)
  | (req, now) :: rest =>
      let (r, chamber) := handle req now chamber in
      let (rs, chamber) := serve rest chamber in
      (r :: rs, chamber)
  end.

End Server.

(** ** The console interface ([EchoChamberUI])

    [runTests] and [predictMode] are modelled by what they compute: the
    counters that the last line of [runTests] prints, the outcome of
    [predictMode], and the chamber they leave.  The lines they print are not
    modelled.  [clock i] is the clock reading during the [i]-th test case. *)

Module UI.

Record EchoChamberUI : Type := { chamber : EchoChamber }.

(** [new EchoChamberUI()] *)
Definition new_EchoChamberUI : EchoChamberUI := {| chamber := new_EchoChamber |}.

Record TestCase : Type := {
  name : string;
  tc_sequence : value;
  expected : option number      (* [None]: null, "this should fail" *)
}.

Definition literal (zs : list Z) : value :=
  Array (map (fun z => Number (of_Z z)) zs).

Definition testCases : list TestCase :=
  [ {| name := "Simple Arithmetic Progression";
       tc_sequence := literal [3; 6; 9; 12]%Z; expected := Some (of_Z 15) |};
    {| name := "Negative Differences";
       tc_sequence := literal [10; 7; 4; 1]%Z; expected := Some (of_Z (-2)) |};
    {| name := "Large Numbers";
       tc_sequence := literal [100; 200; 300; 400]%Z;
       expected := Some (of_Z 500) |};
    {| name := "Negative Numbers";
       tc_sequence := literal [-5; -3; -1; 1]%Z; expected := Some (of_Z 3) |};
    {| name := "Single Difference";
       tc_sequence := literal [1; 2]%Z; expected := Some (of_Z 3) |};
    {| name := "Not an Arithmetic Progression";
       tc_sequence := literal [1; 2; 4; 8]%Z; expected := None |} ].

(** [result.nextNumber === testCase.expected], the expected value being a
    number. *)
Definition is_expected (nextNumber : option number) (e : number) : bool :=
  match nextNumber with
  | Some n => strict_eq n e
  | None => false
  end.

(** The body of [testCases.forEach]: the counters [passedTests] and
    [failedTests] and the chamber, before and after one test case. *)
Definition run_test (testCase : TestCase) (now : string)
  (acc : Z * Z * EchoChamber) : Z * Z * EchoChamber :=
  let '(passedTests, failedTests, chamber) := acc in
  let (result, chamber) := predictNext (tc_sequence testCase) now chamber in
  match expected testCase with
  | None =>
      if negb (success result)
      then (passedTests + 1, failedTests, chamber)%Z
      else (passedTests, failedTests + 1, chamber)%Z
  | Some e =>
      if success result && is_expected (nextNumber result) e
      then (passedTests + 1, failedTests, chamber)%Z
      else (passedTests, failedTests + 1, chamber)%Z
  end.

(** [runTests()]: the counters of its report and the interface afterwards. *)
Definition runTests (clock : nat -> string) (this : EchoChamberUI)
  : (Z * Z) * EchoChamberUI :=
  let '(passedTests, failedTests, chamber) :=
    fold_left (fun acc it => run_test (snd it) (clock (fst it)) acc)
      (combine (seq 0 (List.length testCases)) testCases)
      (0%Z, 0%Z, chamber this) in
  ((passedTests, failedTests), {| chamber := chamber |}).

(** [predictMode]: what the callback of [rl.question] computes from the line
    the user entered.  The built-ins [String.prototype.toLowerCase],
    [String.prototype.trim] and [parseFloat] are parameters. *)

Section PredictMode.

Variable toLowerCase : string -> string.
Variable trim : string -> string.
Variable parseFloat : string -> number.

(** [input.split(',')] *)
Fixpoint split_commas (input : string) : list string :=
  match input with
  | EmptyString => [EmptyString]
  | String.String c rest =>
      if Ascii.eqb c ","%char then EmptyString :: split_commas rest
      else
        match split_commas rest with
        | piece :: pieces => String.String c piece :: pieces
        | [] => [String.String c EmptyString]
        end
  end.

(** [pieces.map(num => ...)]: the parsed numbers, or the trimmed piece of the
    first [throw]. *)
Fixpoint parse_pieces (pieces : list string) : list number + string :=
  match pieces with
  | [] => inl []
  | num :: rest =>
      let parsed := parseFloat (trim num) in
      if is_nan parsed then inr (trim num)
      else
        match parse_pieces rest with
        | inl parsedRest => inl (parsed :: parsedRest)
        | inr piece => inr piece
        end
  end.

Inductive outcome : Type :=
| Parse_error (piece : string)      (* `Invalid number: ${piece}` *)
| Result (result : Prediction).

Definition predictMode (input : string) (now : string) (this : EchoChamberUI)
  : outcome * EchoChamberUI :=
  let parsed :=
    if String.eqb (toLowerCase input) "demo"
    then inl (map of_Z [3; 6; 9; 12]%Z)
    else parse_pieces (split_commas input) in
  match parsed with
  | inr piece => (Parse_error piece, this)
  | inl sequence =>
      let (result, chamber) :=
        predictNext (Array (map Number sequence)) now (chamber this) in
      (Result result, {| chamber := chamber |})
  end.

End PredictMode.

End UI.

(** ** Inputs and predicates used by the statements *)

(** The array literal [[z1, z2, ...]] of integer literals. *)
Definition ints (zs : list Z) : list number := map of_Z zs.
Definition array_of (xs : list number) : value := Array (map Number xs).

(** An instance that already holds one echo. *)
Definition one_echo : EchoChamber :=
  snd (predictNext (array_of (ints [5; 10]%Z)) "10:00:00 AM" new_EchoChamber).

(** A number that is finite, as the specification requires of every element. *)
Definition finite_number (v : value) : bool :=
  match v with
  | Number n => is_finite n
  | _ => false
  end.

(** What identifies the creation of an echo: the copied sequence and the
    clock reading. *)
Definition entry_input (m : Memory) : list value * string :=
  (sequence m, timestamp m).

(** The counter equals the number of stored echoes. *)
Definition counted (this : EchoChamber) : Prop :=
  predictionCount this = Z.of_nat (List.length (echoMemories this)).

(** From an instance without echoes and with counter 0 (a fresh or a
    cleared one), calls without [clearMemories] leave as many echoes as
    there were successful predictions, numbered 1, 2, ... in order. *)
Definition dense_history (start : EchoChamber) (cs : list call) : Prop :=
  let this := run_calls cs start in
  let N := List.length (successes cs start) in
  List.length (fst (getMemories this)) = N /\
  map predictionIndex (fst (getMemories this)) = map Z.of_nat (seq 1 N).

Definition demo_calls : list call :=
  [ Call_predictNext (array_of (ints [3; 6; 9; 12]%Z)) "10:00:02 AM";
    Call_predictNext (array_of (ints [1; 2; 4; 8]%Z)) "10:00:03 AM";
    Call_validateSequence (array_of (ints [2; 4; 6; 8]%Z));
    Call_getMemories;
    Call_predictNext (array_of (ints [10; 7; 4; 1]%Z)) "10:00:04 AM" ].

Definition demo_before : list call :=
  [ Call_predictNext (array_of (ints [5; 10]%Z)) "10:00:00 AM";
    Call_clearMemories;
    Call_predictNext (array_of (ints [1; 2]%Z)) "10:00:01 AM" ].

(** [n] requests [GET /api/test], with their clock readings. *)
Definition test_requests (nows : list string) : list (Server.request * string) :=
  map (fun now => (Server.GET_test, now)) nows.

(** The requests other than [GET /api/test]. *)
Definition not_test (r : Server.request * string) : bool :=
  match fst r with
  | Server.GET_test => false
  | _ => true
  end.

(** [-x] on numbers. *)
Definition neg (x : number) : number := SFopp x.

(** The integers of the sample sequence. *)
Definition demo_ints : list Z := [3; 6; 9; 12]%Z.

(** An echo that records an arithmetic progression with its difference and
    its continuation: its sequence holds at least two numbers whose
    consecutive differences are all strictly equal to the recorded
    difference (the first of them), and the recorded next number is the
    last element plus that difference. *)
Definition progression_record (m : Memory) : Prop :=
  exists xs d,
    sequence m = map Number xs /\
    (2 <= List.length xs)%nat /\
    m_commonDifference m = Some d /\
    d = sub (nth 1 xs NaN) (nth 0 xs NaN) /\
    (forall i, (1 <= i < List.length xs)%nat ->
               strict_eq (sub (nth i xs NaN) (nth (i - 1) xs NaN)) d = true) /\
    m_nextNumber m = add (nth (List.length xs - 1) xs NaN) d.


(** A safe integer: at most [Number.MAX_SAFE_INTEGER = 2^53 - 1] in
    absolute value. *)
Definition safe (z : Z) : Prop := (Z.abs z < 2 ^ 53)%Z.

(** The binary64 number of a positive integer of at most 53 bits: the
    mantissa shifted to 53 bits. *)
Definition canon (s : bool) (p : positive) : number :=
  S754_finite s
    (Pos.shiftl p (Z.to_N (53 - Zpos (digits2_pos p))))
    (Zpos (digits2_pos p) - 53).

(** Proof steps for the concrete inputs. *)
Ltac index_cases i Hi :=
  simpl in Hi;
  assert (i = 1 \/ i = 2 \/ i = 3)%nat as [->|[->| ->]] by lia.

Ltac all_safe := repeat constructor; vm_compute; reflexivity.

(** * Properties *)

(** ** Numbers *)

Section Numbers.

Lemma strict_eq_inv (a b : number) :
  strict_eq a b = true ->
  (a = b /\ is_nan a = false) \/
  (exists s1 s2, a = S754_zero s1 /\ b = S754_zero s2).
Proof.
  unfold strict_eq, SFeqb.
  destruct a as [sa|sa| |sa ma ea], b as [sb|sb| |sb mb eb]; simpl;
    try discriminate;
    try (destruct sa; discriminate); try (destruct sb; discriminate).
  - intros _. right. eauto.
  - destruct sa, sb; try discriminate; auto.
  - change (PosDef.Pos.compare_cont Eq ma mb) with (Pos.compare ma mb).
    destruct sa, sb; try discriminate;
      destruct (Z.compare_spec ea eb) as [He|He|He]; try discriminate;
      subst eb;
      destruct (Pos.compare_spec ma mb) as [Hm|Hm|Hm]; try discriminate;
      subst mb; auto.
Qed.

Lemma strict_eq_refl (a : number) : is_nan a = false -> strict_eq a a = true.
Proof.
  unfold strict_eq, SFeqb.
  destruct a as [sa|sa| |sa ma ea]; simpl; try discriminate; intros _.
  - reflexivity.
  - destruct sa; reflexivity.
  - destruct sa; rewrite Z.compare_refl;
      change (PosDef.Pos.compare_cont Eq ma ma) with (Pos.compare ma ma);
      rewrite Pos.compare_refl; reflexivity.
Qed.

Lemma strict_eq_not_nan (a b : number) :
  strict_eq a b = true -> is_nan a = false /\ is_nan b = false.
Proof.
  destruct a, b; simpl; try discriminate; auto.
Qed.

Lemma strict_eq_sym (a b : number) :
  strict_eq a b = true -> strict_eq b a = true.
Proof.
  intros H. destruct (strict_eq_inv _ _ H) as [[-> Hn]|(s1 & s2 & -> & ->)].
  - now apply strict_eq_refl.
  - reflexivity.
Qed.

Lemma strict_eq_trans (a b c : number) :
  strict_eq a b = true -> strict_eq b c = true -> strict_eq a c = true.
Proof.
  intros H1 H2.
  destruct (strict_eq_inv _ _ H1) as [[-> _]|(s1 & s2 & -> & ->)].
  - exact H2.
  - (* the comparison ignores the sign of a zero *)
    exact H2.
Qed.

(** Rounding never produces NaN: the mantissa stays non-negative through the
    shifts and the rounding step of [binary_round_aux]. *)

Lemma iter_pos_preserves {A : Type} (P : A -> Prop) (f : A -> A) :
  (forall x, P x -> P (f x)) ->
  forall n x, P x -> P (iter_pos f n x).
Proof.
  intros Hf. induction n as [n IH|n IH|]; intros x Hx; simpl; auto.
Qed.

Lemma shr_1_nonneg (mrs : shr_record) :
  (0 <= shr_m mrs)%Z -> (0 <= shr_m (shr_1 mrs))%Z.
Proof.
  destruct mrs as [m r s]. destruct m as [|[p|p|]|[p|p|]]; simpl; lia.
Qed.

Lemma shr_nonneg (mrs : shr_record) (e n : Z) :
  (0 <= shr_m mrs)%Z -> (0 <= shr_m (fst (shr mrs e n)))%Z.
Proof.
  intros H. destruct n as [|p|p]; simpl; auto.
  apply (iter_pos_preserves (fun r => (0 <= shr_m r)%Z)); auto.
  exact shr_1_nonneg.
Qed.

Lemma shr_fexp_nonneg (m e : Z) (l : location) :
  (0 <= m)%Z -> (0 <= shr_m (fst (shr_fexp prec emax m e l)))%Z.
Proof.
  intros H. unfold shr_fexp. apply shr_nonneg.
  destruct l as [|[| |]]; exact H.
Qed.

Lemma round_nearest_even_nonneg (m : Z) (l : location) :
  (0 <= m)%Z -> (0 <= round_nearest_even m l)%Z.
Proof.
  intros H. destruct l as [|[| |]]; simpl; try destruct (Z.even m); lia.
Qed.

Lemma binary_round_aux_not_nan (sx : bool) (mx ex : Z) (lx : location) :
  (0 <= mx)%Z -> is_nan (binary_round_aux prec emax sx mx ex lx) = false.
Proof.
  intros H. unfold binary_round_aux.
  pose proof (shr_fexp_nonneg mx ex lx H) as H1.
  destruct (shr_fexp prec emax mx ex lx) as [mrs1 e1]. simpl in H1.
  pose proof (shr_fexp_nonneg _ e1 loc_Exact
                (round_nearest_even_nonneg _ (loc_of_shr_record mrs1) H1)) as H2.
  destruct (shr_fexp prec emax _ e1 loc_Exact) as [mrs2 e2]. simpl in H2.
  destruct (shr_m mrs2) as [|m|m].
  - reflexivity.
  - destruct (e2 <=? emax - prec)%Z; reflexivity.
  - lia.
Qed.

Lemma binary_normalize_not_nan (m e : Z) (szero : bool) :
  is_nan (binary_normalize prec emax m e szero) = false.
Proof.
  destruct m as [|p|p]; simpl; trivial; unfold binary_round;
    destruct (shl_align p e _) as [mz ez];
    apply binary_round_aux_not_nan; lia.
Qed.

Lemma add_finite_not_nan (l a : number) :
  is_finite l = true -> is_nan a = false -> is_nan (add l a) = false.
Proof.
  destruct l as [sl|sl| |sl ml el], a as [sa|sa| |sa ma ea]; simpl;
    try discriminate; try reflexivity; intros _ _.
  - destruct sl, sa; reflexivity.
  - apply binary_normalize_not_nan.
Qed.

Lemma sub_finite_not_nan (a b : number) :
  is_finite a = true -> is_finite b = true -> is_nan (sub a b) = false.
Proof.
  destruct a as [sa|sa| |sa ma ea], b as [sb|sb| |sb mb eb]; simpl;
    try discriminate; try reflexivity; intros _ _.
  - destruct sa, sb; reflexivity.
  - apply binary_normalize_not_nan.
Qed.

(** Adding strictly equal numbers to a finite number gives strictly equal
    sums (the two numbers may be zeros of opposite sign). *)
Lemma add_strict_eq_compat (l a b : number) :
  is_finite l = true -> strict_eq a b = true ->
  strict_eq (add l a) (add l b) = true.
Proof.
  intros Hl H.
  destruct (strict_eq_inv _ _ H) as [[-> Hn]|(s1 & s2 & -> & ->)].
  - apply strict_eq_refl, add_finite_not_nan; assumption.
  - destruct l as [sl|sl| |sl ml el]; try discriminate.
    + destruct sl, s1, s2; reflexivity.
    + simpl. apply strict_eq_refl. reflexivity.
Qed.

End Numbers.

(** ** validateSequence on arrays of numbers *)

Section Validation.

Lemma numbers_map_Number (xs : list number) : numbers (map Number xs) = xs.
Proof.
  induction xs as [|x xs IH]; simpl; [reflexivity | now rewrite IH].
Qed.

Lemma valid_number_Number (n : number) :
  valid_number (Number n) = negb (is_nan n).
Proof. reflexivity. Qed.

Lemma valid_number_inv (v : value) :
  valid_number v = true -> exists n, v = Number n /\ is_nan n = false.
Proof.
  destruct v; simpl; try discriminate.
  intros H. exists n. split; [reflexivity | now apply negb_true_iff].
Qed.

Lemma forallb_valid_number_map (xs : list number) :
  forallb valid_number (map Number xs) = forallb (fun x => negb (is_nan x)) xs.
Proof.
  induction xs as [|x xs IH]; simpl; [reflexivity|].
  now rewrite IH, valid_number_Number.
Qed.

Lemma finite_not_nan (x : number) : is_finite x = true -> is_nan x = false.
Proof. destruct x; simpl; congruence. Qed.

Lemma forallb_finite_not_nan (xs : list number) :
  forallb is_finite xs = true ->
  forallb (fun x => negb (is_nan x)) xs = true.
Proof.
  rewrite !forallb_forall. intros H x Hx.
  now rewrite (finite_not_nan x (H x Hx)).
Qed.

(** The differences by index: [differences[i-1] = s[i] - s[i-1]]. *)
Lemma forallb_differences (p : number -> bool) (xs : list number) :
  forallb p (differences xs) = true <->
  (forall i, (1 <= i < List.length xs)%nat ->
             p (sub (nth i xs NaN) (nth (i - 1) xs NaN)) = true).
Proof.
  induction xs as [|a xs IH].
  - simpl. split; [intros _ i Hi; lia | reflexivity].
  - destruct xs as [|b xs].
    + simpl. split; [intros _ i Hi; lia | reflexivity].
    + change (differences (a :: b :: xs))
        with (sub b a :: differences (b :: xs)).
      cbn [forallb]. rewrite andb_true_iff, IH. split.
      * intros [Hab Hrest] i Hi.
        destruct i as [|[|i]]; [lia | exact Hab |].
        replace (S (S i) - 1)%nat with (S i) by lia.
        specialize (Hrest (S i)).
        replace (S i - 1)%nat with i in Hrest by lia.
        apply Hrest. simpl in Hi |- *. lia.
      * intros H. split.
        -- apply (H 1%nat). simpl. lia.
        -- intros i Hi. specialize (H (S i)).
           replace (S i - 1)%nat with i in H by lia.
           destruct i as [|i]; [lia|].
           replace (S i - 1)%nat with i by lia.
           apply H. simpl in Hi |- *. lia.
Qed.

Lemma first_difference (xs : list number) :
  (2 <= List.length xs)%nat ->
  nth_error (differences xs) 0 = Some (sub (nth 1 xs NaN) (nth 0 xs NaN)).
Proof.
  destruct xs as [|a [|b xs]]; simpl; intros H; try lia. reflexivity.
Qed.

(** What [validateSequence] returns on an array of at least two numbers none
    of which is NaN. *)
Lemma validateSequence_numbers (xs : list number) (this : EchoChamber) :
  (2 <= List.length xs)%nat ->
  forallb (fun x => negb (is_nan x)) xs = true ->
  fst (validateSequence (Array (map Number xs)) this) =
    let d0 := sub (nth 1 xs NaN) (nth 0 xs NaN) in
    if forallb (fun d => strict_eq d d0) (differences xs)
    then {| isValid := true; difference := Some d0; v_message := msg_valid |}
    else invalid msg_not_arithmetic.
Proof.
  intros Hlen Hnum. unfold validateSequence. cbn [fst isArray negb spread].
  rewrite length_map.
  destruct (Nat.ltb_spec (List.length xs) 2) as [Hlt|_]; [lia|].
  rewrite forallb_valid_number_map, Hnum. cbn [negb].
  rewrite numbers_map_Number, first_difference by exact Hlen.
  cbn zeta. unfold same_as.
  destruct (forallb _ (differences xs)); reflexivity.
Qed.

Lemma validateSequence_this (sequence : value) (this : EchoChamber) :
  snd (validateSequence sequence this) = this.
Proof. reflexivity. Qed.

Lemma validateSequence_any_this (sequence : value) (this this' : EchoChamber) :
  fst (validateSequence sequence this) = fst (validateSequence sequence this').
Proof. reflexivity. Qed.

Lemma numbers_of_valid (elems : list value) :
  forallb valid_number elems = true -> elems = map Number (numbers elems).
Proof.
  induction elems as [|v elems IH]; simpl; [reflexivity|].
  intros H. apply andb_true_iff in H. destruct H as [Hv Hrest].
  destruct (valid_number_inv v Hv) as (n & -> & _).
  simpl. now rewrite <- IH.
Qed.

(** Only arrays of at least two numbers, none of them NaN, can be valid. *)
Lemma validateSequence_valid_inv (sequence : value) (this : EchoChamber) :
  isValid (fst (validateSequence sequence this)) = true ->
  exists xs, sequence = Array (map Number xs) /\
             (2 <= List.length xs)%nat /\
             forallb (fun x => negb (is_nan x)) xs = true.
Proof.
  unfold validateSequence. cbn [fst].
  destruct sequence as [| | | | |elems|]; try discriminate.
  cbn [isArray negb spread].
  destruct (Nat.ltb_spec (List.length elems) 2) as [|Hlen]; [discriminate|].
  destruct (forallb valid_number elems) eqn:Hnum; [|discriminate].
  intros _. exists (numbers elems).
  pose proof (numbers_of_valid elems Hnum) as He.
  split; [now rewrite <- He|]. split.
  - rewrite He, length_map in Hlen. exact Hlen.
  - rewrite He, forallb_valid_number_map in Hnum. exact Hnum.
Qed.

(** A valid result carries a difference that is strictly equal to itself,
    hence not NaN. *)
Lemma valid_difference (sequence : value) (this : EchoChamber) :
  isValid (fst (validateSequence sequence this)) = true ->
  exists d, difference (fst (validateSequence sequence this)) = Some d /\
            strict_eq d d = true.
Proof.
  intros Hv.
  destruct (validateSequence_valid_inv _ _ Hv) as (xs & -> & Hlen & Hnum).
  rewrite validateSequence_numbers in Hv |- * by assumption.
  cbn zeta in Hv |- *.
  destruct (forallb _ (differences xs)) eqn:Hall; [|discriminate].
  eexists. split; [reflexivity|].
  rewrite forallb_differences in Hall. apply (Hall 1%nat). lia.
Qed.

(** An invalid result carries no difference. *)
Lemma invalid_difference (sequence : value) (this : EchoChamber) :
  isValid (fst (validateSequence sequence this)) = false ->
  difference (fst (validateSequence sequence this)) = None.
Proof.
  unfold validateSequence. cbn [fst].
  destruct sequence as [| | | | |elems|]; try reflexivity.
  cbn [isArray negb spread].
  destruct (List.length elems <? 2)%nat; [reflexivity|].
  destruct (negb (forallb valid_number elems)); [reflexivity|].
  cbn zeta. destruct (negb (forallb _ _)); [reflexivity|discriminate].
Qed.

End Validation.

(** ** Claims on validateSequence and predictNext *)

(** C1: for every array of at least two finite numbers whose consecutive
    differences [s[i] - s[i-1]] are all strictly equal ([===]) to a constant
    [d], [predictNext] returns [success: true], a [commonDifference] (the
    first difference) strictly equal to [d], and a [nextNumber] (the last
    element plus the first difference) strictly equal to the last element
    plus [d]. *)
Theorem predictNext_constant_step
  (xs : list number) (d : number) (now : string) (this : EchoChamber) :
  (2 <= List.length xs)%nat ->
  forallb is_finite xs = true ->
  (forall i, (1 <= i < List.length xs)%nat ->
             strict_eq (sub (nth i xs NaN) (nth (i - 1) xs NaN)) d = true) ->
  let last := nth (List.length xs - 1) xs NaN in
  let cd := sub (nth 1 xs NaN) (nth 0 xs NaN) in
  let next := add last cd in
  fst (predictNext (array_of xs) now this) =
    {| success := true;
       nextNumber := Some next;
       commonDifference := Some cd;
       p_message := NextNumberIs next |} /\
  strict_eq cd d = true /\
  strict_eq next (add last d) = true.
Proof.
  intros Hlen Hfin Hstep last cd next.
  assert (Hcd : strict_eq cd d = true) by (apply (Hstep 1%nat); lia).
  assert (Hall : forallb (fun x => strict_eq x cd) (differences xs) = true).
  { apply forallb_differences. intros i Hi.
    eapply strict_eq_trans; [apply Hstep, Hi | apply strict_eq_sym, Hcd]. }
  assert (Hlast : nth_error xs (List.length xs - 1) = Some last).
  { apply nth_error_nth'. lia. }
  assert (Hfl : is_finite last = true).
  { rewrite forallb_forall in Hfin. apply Hfin.
    eapply nth_error_In, Hlast. }
  split; [|split].
  - unfold predictNext, array_of.
    pose proof (validateSequence_numbers xs this Hlen
                  (forallb_finite_not_nan xs Hfin)) as Hv.
    cbn zeta in Hv. fold cd in Hv. rewrite Hall in Hv.
    destruct (validateSequence (Array (map Number xs)) this) as [v this'].
    cbn [fst] in Hv. subst v. cbn [isValid negb difference fst spread].
    rewrite numbers_map_Number. unfold last_plus. rewrite Hlast.
    reflexivity.
  - exact Hcd.
  - apply add_strict_eq_compat; assumption.
Qed.

Lemma predictNext_constant_step_witness :
  fst (predictNext (array_of (ints [3; 6; 9; 12]%Z)) "10:00:00 AM" one_echo) =
    {| success := true;
       nextNumber := Some (add (of_Z 12) (sub (of_Z 6) (of_Z 3)));
       commonDifference := Some (sub (of_Z 6) (of_Z 3));
       p_message := NextNumberIs (add (of_Z 12) (sub (of_Z 6) (of_Z 3))) |} /\
  strict_eq (sub (of_Z 6) (of_Z 3)) (of_Z 3) = true /\
  strict_eq (add (of_Z 12) (sub (of_Z 6) (of_Z 3))) (add (of_Z 12) (of_Z 3)) = true.
Proof.
  apply (predictNext_constant_step (ints [3; 6; 9; 12]%Z) (of_Z 3)).
  - simpl. lia.
  - reflexivity.
  - intros i Hi. simpl in Hi.
    assert (H : i = 1%nat \/ i = 2%nat \/ i = 3%nat) by lia.
    destruct H as [->|[->| ->]]; vm_compute; reflexivity.
Defined.

(** The scenarios of the specification, evaluated. *)
Example predictNext_3_6_9_12 :
  fst (predictNext (array_of (ints [3; 6; 9; 12]%Z)) "t" new_EchoChamber) =
    {| success := true; nextNumber := Some (of_Z 15);
       commonDifference := Some (of_Z 3);
       p_message := NextNumberIs (of_Z 15) |}.
Proof. vm_compute. reflexivity. Qed.

Example predictNext_10_7_4_1 :
  fst (predictNext (array_of (ints [10; 7; 4; 1]%Z)) "t" new_EchoChamber) =
    {| success := true; nextNumber := Some (of_Z (-2));
       commonDifference := Some (of_Z (-3));
       p_message := NextNumberIs (of_Z (-2)) |}.
Proof. vm_compute. reflexivity. Qed.

Example predictNext_7_7_7_7 :
  fst (predictNext (array_of (ints [7; 7; 7; 7]%Z)) "t" new_EchoChamber) =
    {| success := true; nextNumber := Some (of_Z 7);
       commonDifference := Some (of_Z 0);
       p_message := NextNumberIs (of_Z 7) |}.
Proof. vm_compute. reflexivity. Qed.

Example predictNext_5_10 :
  fst (predictNext (array_of (ints [5; 10]%Z)) "t" new_EchoChamber) =
    {| success := true; nextNumber := Some (of_Z 15);
       commonDifference := Some (of_Z 5);
       p_message := NextNumberIs (of_Z 15) |}.
Proof. vm_compute. reflexivity. Qed.

(** C4: on an array of at least two finite numbers, [validateSequence]
    returns [isValid: true] with [difference = s[1] - s[0]] when every
    consecutive difference [s[i] - s[i-1]] is strictly equal ([===], no
    tolerance) to that first difference, and [isValid: false] with
    [difference: null] when some difference is not. *)
Theorem validateSequence_exact_differences
  (xs : list number) (this : EchoChamber) :
  (2 <= List.length xs)%nat ->
  forallb is_finite xs = true ->
  let r := fst (validateSequence (array_of xs) this) in
  let d0 := sub (nth 1 xs NaN) (nth 0 xs NaN) in
  let all_equal :=
    forall i, (1 <= i < List.length xs)%nat ->
              strict_eq (sub (nth i xs NaN) (nth (i - 1) xs NaN)) d0 = true in
  (all_equal -> isValid r = true /\ difference r = Some d0) /\
  (~ all_equal -> isValid r = false /\ difference r = None) /\
  (isValid r = true -> all_equal).
Proof.
  intros Hlen Hfin r d0 all_equal.
  pose proof (validateSequence_numbers xs this Hlen
                (forallb_finite_not_nan xs Hfin)) as Hv.
  cbn zeta in Hv. fold d0 in Hv. fold (array_of xs) in Hv. fold r in Hv.
  pose proof (forallb_differences (fun x => strict_eq x d0) xs) as Hiff.
  cbn beta in Hiff.
  destruct (forallb (fun x => strict_eq x d0) (differences xs)).
  - rewrite Hv. cbn [isValid difference].
    assert (Ha : all_equal) by exact (proj1 Hiff eq_refl).
    split; [|split].
    + intros _. split; reflexivity.
    + intros Hn. contradiction.
    + intros _. exact Ha.
  - rewrite Hv. cbn [isValid difference invalid].
    split; [|split].
    + intros Ha. discriminate (proj2 Hiff Ha).
    + intros _. split; reflexivity.
    + intros H. discriminate H.
Qed.

Lemma validateSequence_exact_differences_witness :
  isValid (fst (validateSequence (array_of (ints [1; 2; 4; 8]%Z))
                  new_EchoChamber)) = false /\
  difference (fst (validateSequence (array_of (ints [1; 2; 4; 8]%Z))
                     new_EchoChamber)) = None.
Proof.
  assert (Hlen : (2 <= List.length (ints [1; 2; 4; 8]%Z))%nat)
    by (simpl; lia).
  assert (Hfin : forallb is_finite (ints [1; 2; 4; 8]%Z) = true)
    by reflexivity.
  apply (proj1 (proj2 (validateSequence_exact_differences
                         (ints [1; 2; 4; 8]%Z) new_EchoChamber Hlen Hfin))).
  intros H. specialize (H 2%nat). vm_compute in H.
  assert (Hr : (1 <= 2 < 4)%nat) by lia.
  specialize (H Hr). discriminate H.
Defined.

(** C3, as stated, fails: [[1, Infinity]] holds an element that is not a
    finite number, and [validateSequence] accepts it with
    [difference: Infinity]. *)
Lemma validateSequence_accepts_Infinity :
  In (Number Infinity) [Number (of_Z 1); Number Infinity] /\
  finite_number (Number Infinity) = false /\
  fst (validateSequence (Array [Number (of_Z 1); Number Infinity])
         new_EchoChamber) =
    {| isValid := true; difference := Some Infinity; v_message := msg_valid |}.
Proof.
  split; [right; left; reflexivity|]. split; [reflexivity|].
  vm_compute. reflexivity.
Qed.

(** C3 (amended): [validateSequence] returns [isValid: false] and
    [difference: null] whenever the input is not an array, or has fewer than
    two elements, or has an element that is not a number or is NaN. *)
Theorem validateSequence_rejects (sequence : value) (this : EchoChamber) :
  (forall elems, sequence <> Array elems) \/
  (exists elems,
      sequence = Array elems /\
      ((List.length elems < 2)%nat \/
       exists v, In v elems /\ ((forall n, v <> Number n) \/ v = Number NaN))) ->
  isValid (fst (validateSequence sequence this)) = false /\
  difference (fst (validateSequence sequence this)) = None.
Proof.
  intros H.
  destruct (isValid (fst (validateSequence sequence this))) eqn:Hv.
  - exfalso.
    destruct (validateSequence_valid_inv _ _ Hv) as (xs & Hs & Hlen & Hnum).
    destruct H as [H|(elems & He & [H|(v & Hin & H)])].
    + exact (H _ Hs).
    + rewrite Hs in He. injection He as <-. rewrite length_map in H. lia.
    + rewrite Hs in He. injection He as <-.
      apply in_map_iff in Hin. destruct Hin as (n & <- & Hn).
      rewrite forallb_forall in Hnum. specialize (Hnum n Hn).
      destruct H as [H|H].
      * exact (H n eq_refl).
      * injection H as ->. discriminate Hnum.
  - split; [reflexivity | now apply invalid_difference].
Qed.

Lemma validateSequence_rejects_witness :
  isValid (fst (validateSequence
                  (Array [Number (of_Z 1); Number NaN; Number (of_Z 3)])
                  new_EchoChamber)) = false /\
  difference (fst (validateSequence
                     (Array [Number (of_Z 1); Number NaN; Number (of_Z 3)])
                     new_EchoChamber)) = None.
Proof.
  apply validateSequence_rejects. right.
  exists [Number (of_Z 1); Number NaN; Number (of_Z 3)].
  split; [reflexivity|]. right. exists (Number NaN).
  split; [simpl; auto | right; reflexivity].
Defined.

(** C5: when [validateSequence] fails on an input, [predictNext] returns
    [success: false], [nextNumber: null] and the validation's message, and
    the instance is unchanged: no echo is appended and the counter keeps its
    value. *)
Theorem predictNext_invalid
  (sequence : value) (now : string) (this : EchoChamber) :
  isValid (fst (validateSequence sequence this)) = false ->
  predictNext sequence now this =
    ({| success := false;
        nextNumber := None;
        commonDifference := None;
        p_message := Text (v_message (fst (validateSequence sequence this))) |},
     this) /\
  echoMemories (snd (predictNext sequence now this)) = echoMemories this /\
  predictionCount (snd (predictNext sequence now this)) = predictionCount this.
Proof.
  intros Hv. unfold predictNext.
  pose proof (validateSequence_this sequence this) as Ht.
  destruct (validateSequence sequence this) as [v this'].
  cbn [fst snd] in Hv, Ht |- *. subst this'. rewrite Hv. cbn.
  repeat split.
Qed.

Lemma predictNext_invalid_witness :
  predictNext (array_of (ints [1; 2; 4; 8]%Z)) "10:00:01 AM" one_echo =
    ({| success := false;
        nextNumber := None;
        commonDifference := None;
        p_message :=
          Text (v_message (fst (validateSequence
                                  (array_of (ints [1; 2; 4; 8]%Z)) one_echo))) |},
     one_echo) /\
  echoMemories (snd (predictNext (array_of (ints [1; 2; 4; 8]%Z))
                       "10:00:01 AM" one_echo)) = echoMemories one_echo /\
  predictionCount (snd (predictNext (array_of (ints [1; 2; 4; 8]%Z))
                          "10:00:01 AM" one_echo)) = predictionCount one_echo.
Proof.
  apply predictNext_invalid. vm_compute. reflexivity.
Defined.

(** C6: [validateSequence] is pure: it returns the instance as it received
    it (neither the history nor the counter changes), its result does not
    depend on the instance, and a second call with the same input returns the
    same result, whose difference, when there is one, is strictly equal to
    itself. *)
Theorem validateSequence_pure (sequence : value) (this this' : EchoChamber) :
  snd (validateSequence sequence this) = this /\
  echoMemories (snd (validateSequence sequence this)) = echoMemories this /\
  predictionCount (snd (validateSequence sequence this)) = predictionCount this /\
  fst (validateSequence sequence this) = fst (validateSequence sequence this') /\
  fst (validateSequence sequence (snd (validateSequence sequence this))) =
    fst (validateSequence sequence this) /\
  (forall d, difference (fst (validateSequence sequence this)) = Some d ->
             strict_eq d d = true).
Proof.
  repeat split.
  intros d Hd.
  destruct (isValid (fst (validateSequence sequence this))) eqn:Hv.
  - destruct (valid_difference _ _ Hv) as (d' & Hd' & He). congruence.
  - rewrite (invalid_difference _ _ Hv) in Hd. discriminate Hd.
Qed.

(** ** The history of one instance *)

Section History.

(** [predictNext] either fails and returns the instance as it was, or
    succeeds and pushes one echo numbered with the incremented counter. *)
Lemma predictNext_cases (s : value) (now : string) (this : EchoChamber) :
  (success (fst (predictNext s now this)) = false /\
   snd (predictNext s now this) = this) \/
  (success (fst (predictNext s now this)) = true /\
   exists m,
     snd (predictNext s now this) =
       {| echoMemories := echoMemories this ++ [m];
          predictionCount := predictionCount this + 1 |} /\
     predictionIndex m = (predictionCount this + 1)%Z /\
     entry_input m = (spread s, now)).
Proof.
  unfold predictNext.
  pose proof (validateSequence_this s this) as Ht.
  destruct (validateSequence s this) as [v this']. cbn [snd] in Ht.
  subst this'. destruct (isValid v); cbn [negb fst snd success].
  - right. split; [reflexivity|]. eexists. split; [reflexivity|].
    split; reflexivity.
  - left. split; reflexivity.
Qed.

Lemma map_seq_offset (c : Z) (n len : nat) :
  forall start,
    map (fun k => (c + Z.of_nat n + Z.of_nat k)%Z) (seq start len) =
    map (fun k => (c + Z.of_nat k)%Z) (seq (start + n) len).
Proof.
  induction len as [|len IH]; intros start; simpl; [reflexivity|].
  f_equal; [lia|]. apply (IH (S start)).
Qed.

Lemma run_calls_cons (c : call) (cs : list call) (this : EchoChamber) :
  run_calls (c :: cs) this = run_calls cs (run_call c this).
Proof. reflexivity. Qed.

(** One call that is not [clearMemories] appends at most one echo. *)
Lemma run_call_appends (c : call) (this : EchoChamber) :
  is_clear c = false ->
  exists added,
    echoMemories (run_call c this) = echoMemories this ++ added /\
    predictionCount (run_call c this) =
      (predictionCount this + Z.of_nat (List.length added))%Z /\
    map entry_input added = (if succeeds c this then input_of c else []) /\
    map predictionIndex added =
      map (fun k => (predictionCount this + Z.of_nat k)%Z)
          (seq 1 (List.length added)).
Proof.
  intros Hc.
  assert (Hsame : forall st, st = this -> succeeds c this = false ->
            exists added,
              echoMemories st = echoMemories this ++ added /\
              predictionCount st =
                (predictionCount this + Z.of_nat (List.length added))%Z /\
              map entry_input added =
                (if succeeds c this then input_of c else []) /\
              map predictionIndex added =
                map (fun k => (predictionCount this + Z.of_nat k)%Z)
                    (seq 1 (List.length added))).
  { intros st -> Hs. exists []. rewrite Hs, app_nil_r. simpl.
    repeat split. lia. }
  destruct c as [s|s now| |]; try discriminate; cbn [run_call].
  - apply Hsame; reflexivity.
  - destruct (predictNext_cases s now this) as [[Hf Hst]|[Hs (m & Hst & Hi & Hin)]].
    + apply Hsame; assumption.
    + exists [m]. rewrite Hst. cbn [echoMemories predictionCount succeeds].
      rewrite Hs. cbn [input_of map List.length seq]. rewrite Hi, Hin.
      repeat split.
  - apply Hsame; reflexivity.
Qed.

(** Calls without [clearMemories] only append, in call order, one echo per
    successful [predictNext], numbered consecutively from the counter. *)
Lemma run_calls_append (cs : list call) :
  forall this, no_clear cs = true ->
  exists added,
    echoMemories (run_calls cs this) = echoMemories this ++ added /\
    predictionCount (run_calls cs this) =
      (predictionCount this + Z.of_nat (List.length added))%Z /\
    map entry_input added = successes cs this /\
    map predictionIndex added =
      map (fun k => (predictionCount this + Z.of_nat k)%Z)
          (seq 1 (List.length added)).
Proof.
  induction cs as [|c cs IH]; intros this Hnc.
  - exists []. cbn. rewrite app_nil_r. repeat split. lia.
  - cbn [no_clear forallb] in Hnc. apply andb_true_iff in Hnc.
    destruct Hnc as [Hc Hnc]. apply negb_true_iff in Hc.
    destruct (run_call_appends c this Hc) as (a1 & Hm1 & Hc1 & Hi1 & Hx1).
    destruct (IH (run_call c this) Hnc) as (a2 & Hm2 & Hc2 & Hi2 & Hx2).
    exists (a1 ++ a2). rewrite run_calls_cons, Hm2, Hm1, Hc2, Hc1.
    rewrite length_app, !map_app, Hi1, Hi2, Hx1, Hx2, seq_app, map_app.
    cbn [successes]. rewrite <- app_assoc. repeat split; [lia|].
    f_equal. rewrite Hc1. apply map_seq_offset.
Qed.

Lemma run_call_counted (c : call) (this : EchoChamber) :
  counted this -> counted (run_call c this).
Proof.
  unfold counted. intros H.
  destruct c as [s|s now| |]; cbn [run_call]; trivial.
  destruct (predictNext_cases s now this) as [[_ ->]|[_ (m & -> & _)]];
    trivial.
  cbn [echoMemories predictionCount]. rewrite length_app, H. simpl. lia.
Qed.

Lemma run_calls_counted (cs : list call) :
  forall this, counted this -> counted (run_calls cs this).
Proof.
  induction cs as [|c cs IH]; intros this H; [exact H|].
  rewrite run_calls_cons. apply IH, run_call_counted, H.
Qed.

Lemma dense_history_from_empty (start : EchoChamber) (cs : list call) :
  echoMemories start = [] -> predictionCount start = 0%Z ->
  no_clear cs = true -> dense_history start cs.
Proof.
  intros He Hc Hnc. unfold dense_history, getMemories. cbn [fst].
  destruct (run_calls_append cs start Hnc) as (added & Hm & _ & Hi & Hx).
  rewrite He in Hm. rewrite Hc in Hx. cbn [app] in Hm.
  rewrite Hm, <- Hi, length_map. split; [reflexivity|exact Hx].
Qed.

End History.

(** ** Claims on the history *)

(** C2: on a fresh instance, after calls none of which is [clearMemories],
    [getMemories()] has as many entries as there were successful calls of
    [predictNext], with [predictionIndex] 1, 2, ..., N in creation order;
    after [clearMemories()] (whatever was called before) the list is empty,
    the same holds again, and the next successful [predictNext] produces
    the entry with [predictionIndex] 1. *)
Theorem history_indices (before cs : list call) :
  no_clear cs = true ->
  let cleared := clearMemories (run_calls before new_EchoChamber) in
  dense_history new_EchoChamber cs /\
  fst (getMemories cleared) = [] /\
  dense_history cleared cs /\
  (forall s now,
      success (fst (predictNext s now cleared)) = true ->
      map predictionIndex
          (fst (getMemories (snd (predictNext s now cleared)))) = [1%Z]).
Proof.
  intros Hnc cleared.
  split; [|split; [|split]].
  - now apply dense_history_from_empty.
  - reflexivity.
  - now apply dense_history_from_empty.
  - intros s now Hs.
    destruct (predictNext_cases s now cleared)
      as [[Hf _]|[_ (m & -> & Hi & _)]]; [congruence|].
    cbn. rewrite Hi. reflexivity.
Qed.

Lemma history_indices_witness :
  dense_history new_EchoChamber demo_calls /\
  fst (getMemories (clearMemories (run_calls demo_before new_EchoChamber))) = [] /\
  dense_history (clearMemories (run_calls demo_before new_EchoChamber))
    demo_calls /\
  (forall s now,
      success (fst (predictNext s now
                      (clearMemories (run_calls demo_before new_EchoChamber))))
        = true ->
      map predictionIndex
          (fst (getMemories
                  (snd (predictNext s now
                          (clearMemories
                             (run_calls demo_before new_EchoChamber))))))
        = [1%Z]).
Proof.
  apply (history_indices demo_before demo_calls). reflexivity.
Defined.

Example demo_calls_indices :
  map predictionIndex (fst (getMemories (run_calls demo_calls new_EchoChamber)))
    = [1%Z; 2%Z] /\
  map predictionIndex
      (fst (getMemories (run_calls (demo_before ++ demo_calls) new_EchoChamber)))
    = [1%Z; 2%Z; 3%Z].
Proof. split; vm_compute; reflexivity. Qed.

(** C7: [getMemories()] returns the stored echoes oldest first: the echoes
    that were there, followed by one echo per successful [predictNext] in
    call order (no [clearMemories] in between); it returns the instance
    unchanged; and on a fresh instance it returns the empty list. *)
Theorem getMemories_creation_order (cs : list call) (this : EchoChamber) :
  no_clear cs = true ->
  fst (getMemories new_EchoChamber) = [] /\
  snd (getMemories this) = this /\
  map entry_input (fst (getMemories (run_calls cs new_EchoChamber))) =
    successes cs new_EchoChamber /\
  exists added,
    fst (getMemories (run_calls cs this)) = fst (getMemories this) ++ added /\
    map entry_input added = successes cs this.
Proof.
  intros Hnc. split; [reflexivity|]. split; [reflexivity|]. split.
  - destruct (run_calls_append cs new_EchoChamber Hnc)
      as (added & Hm & _ & Hi & _).
    unfold getMemories. cbn [fst]. rewrite Hm. exact Hi.
  - destruct (run_calls_append cs this Hnc) as (added & Hm & _ & Hi & _).
    exists added. split; [exact Hm|exact Hi].
Qed.

Lemma getMemories_creation_order_witness :
  fst (getMemories new_EchoChamber) = [] /\
  snd (getMemories one_echo) = one_echo /\
  map entry_input (fst (getMemories (run_calls demo_calls new_EchoChamber))) =
    successes demo_calls new_EchoChamber /\
  exists added,
    fst (getMemories (run_calls demo_calls one_echo)) =
      fst (getMemories one_echo) ++ added /\
    map entry_input added = successes demo_calls one_echo.
Proof.
  apply (getMemories_creation_order demo_calls one_echo). reflexivity.
Defined.

Example demo_calls_order :
  map entry_input (fst (getMemories (run_calls demo_calls one_echo))) =
    [ (map Number (ints [5; 10]%Z), "10:00:00 AM");
      (map Number (ints [3; 6; 9; 12]%Z), "10:00:02 AM");
      (map Number (ints [10; 7; 4; 1]%Z), "10:00:04 AM") ].
Proof. vm_compute. reflexivity. Qed.

(** C9: after any sequence of [validateSequence], [predictNext],
    [getMemories] and [clearMemories] calls on a fresh instance, the
    prediction counter equals the length of the history, and a successful
    [predictNext] pushes one entry whose [predictionIndex] is the length of
    the history it leaves. *)
Theorem counter_is_history_length (cs : list call) :
  let this := run_calls cs new_EchoChamber in
  predictionCount this = Z.of_nat (List.length (echoMemories this)) /\
  (forall s now,
      success (fst (predictNext s now this)) = true ->
      exists m,
        echoMemories (snd (predictNext s now this)) = echoMemories this ++ [m] /\
        predictionIndex m =
          Z.of_nat (List.length (echoMemories (snd (predictNext s now this)))) /\
        predictionCount (snd (predictNext s now this)) =
          Z.of_nat (List.length (echoMemories (snd (predictNext s now this))))).
Proof.
  intros this.
  assert (Hc : counted this) by (apply run_calls_counted; reflexivity).
  split; [exact Hc|].
  intros s now Hs.
  destruct (predictNext_cases s now this)
    as [[Hf _]|[_ (m & -> & Hi & _)]]; [congruence|].
  exists m. cbn [echoMemories predictionCount].
  rewrite Hi, length_app, Hc. simpl. repeat split; lia.
Qed.

(** ** Claims on the web server *)

(** C8: [GET /api/test] answers 200 with [success: true], the prediction for
    [[3, 6, 9, 12]] as [result] ([nextNumber] 15, [commonDifference] 3) and
    the message ['Server is working correctly'], whatever the shared chamber
    holds. *)
Theorem api_test_response (now : string) (chamber : EchoChamber) :
  Server.test_sequence = array_of (ints [3; 6; 9; 12]%Z) /\
  fst (Server.handle Server.GET_test now chamber) =
    {| Server.status := 200;
       Server.json :=
         Server.Json_test true
           {| success := true;
              nextNumber := Some (of_Z 15);
              commonDifference := Some (of_Z 3);
              p_message := NextNumberIs (of_Z 15) |}
           "Server is working correctly" |}.
Proof.
  split; [reflexivity|]. vm_compute. reflexivity.
Qed.

Lemma handle_test_chamber (now : string) (chamber : EchoChamber) :
  snd (Server.handle Server.GET_test now chamber) = chamber.
Proof.
  unfold Server.handle.
  destruct (predictNext Server.test_sequence now new_EchoChamber).
  reflexivity.
Qed.

Lemma serve_tests_chamber (nows : list string) (chamber : EchoChamber) :
  snd (Server.serve (test_requests nows) chamber) = chamber.
Proof.
  induction nows as [|now nows IH]; [reflexivity|].
  cbn [test_requests map Server.serve]. fold (test_requests nows).
  pose proof (handle_test_chamber now chamber) as Hh.
  destruct (Server.handle Server.GET_test now chamber) as [r c].
  cbn [snd] in Hh. subst c.
  destruct (Server.serve (test_requests nows) chamber) as [rs c].
  cbn [snd] in IH |- *. exact IH.
Qed.

Lemma serve_cons (req : Server.request) (now : string)
  (rest : list (Server.request * string)) (chamber : EchoChamber) :
  snd (Server.serve ((req, now) :: rest) chamber) =
  snd (Server.serve rest (snd (Server.handle req now chamber))).
Proof.
  cbn [Server.serve].
  destruct (Server.handle req now chamber) as [r c]. cbn [snd].
  destruct (Server.serve rest c) as [rs c']. reflexivity.
Qed.

(** Among any requests, those to [/api/test] can be left out without
    changing the shared chamber. *)
Lemma serve_without_tests (reqs : list (Server.request * string)) :
  forall chamber,
    snd (Server.serve reqs chamber) =
    snd (Server.serve (filter not_test reqs) chamber).
Proof.
  induction reqs as [|[req now] reqs IH]; intros chamber; [reflexivity|].
  rewrite serve_cons.
  destruct req; cbn [filter not_test fst];
    try (rewrite serve_cons; apply IH).
  rewrite handle_test_chamber. apply IH.
Qed.

(** C10: [GET /api/test] predicts on a chamber of its own: after any number
    of such requests the shared chamber is the one it was, and
    [GET /api/memories] answers as it did before them; among other
    requests, too, the requests to [/api/test] leave no trace in the shared
    chamber. *)
Theorem api_test_keeps_memories
  (nows : list string) (now1 now2 : string) (chamber : EchoChamber)
  (reqs : list (Server.request * string)) :
  snd (Server.serve (test_requests nows) chamber) = chamber /\
  fst (Server.handle Server.GET_memories now2
         (snd (Server.serve (test_requests nows) chamber))) =
    fst (Server.handle Server.GET_memories now1 chamber) /\
  fst (Server.handle Server.GET_memories now1 chamber) =
    {| Server.status := 200;
       Server.json :=
         Server.Json_memories (echoMemories chamber)
           (Z.of_nat (List.length (echoMemories chamber))) |} /\
  snd (Server.serve reqs chamber) =
    snd (Server.serve (filter not_test reqs) chamber).
Proof.
  rewrite serve_tests_chamber. repeat split. apply serve_without_tests.
Qed.

(** * Integers as numbers *)

Section Integers.

Local Open Scope Z_scope.

Lemma Zpos_iter_xO (p d : positive) :
  Zpos (Pos.iter xO p d) = Zpos p * 2 ^ Zpos d.
Proof.
  induction d as [|d IH] using Pos.peano_ind.
  - simpl. rewrite Pos2Z.inj_xO. change (2 ^ 1) with 2. lia.
  - rewrite Pos.iter_succ, Pos2Z.inj_xO, IH, Pos2Z.inj_succ, Z.pow_succ_r by lia.
    lia.
Qed.

Lemma Zpos_shiftl (p : positive) (k : N) :
  Zpos (Pos.shiftl p k) = Zpos p * 2 ^ Z.of_N k.
Proof.
  destruct k as [|d]; simpl.
  - lia.
  - apply Zpos_iter_xO.
Qed.

Lemma digits2_iter_xO (p d : positive) :
  digits2_pos (Pos.iter xO p d) = (digits2_pos p + d)%positive.
Proof.
  induction d as [|d IH] using Pos.peano_ind.
  - simpl. lia.
  - rewrite Pos.iter_succ. simpl. rewrite IH. lia.
Qed.

Lemma digits2_shiftl (p : positive) (k : N) :
  Zpos (digits2_pos (Pos.shiftl p k)) = Zpos (digits2_pos p) + Z.of_N k.
Proof.
  destruct k as [|d]; simpl.
  - lia.
  - rewrite digits2_iter_xO. lia.
Qed.

Lemma digits2_lower (p : positive) : 2 ^ (Zpos (digits2_pos p) - 1) <= Zpos p.
Proof.
  induction p as [p IH|p IH|]; simpl digits2_pos.
  - rewrite Pos2Z.inj_succ, (Pos2Z.inj_xI p).
    replace (Z.succ (Zpos (digits2_pos p)) - 1)
      with (Z.succ (Zpos (digits2_pos p) - 1)) by lia.
    rewrite Z.pow_succ_r by lia.
    revert IH. generalize (2 ^ (Zpos (digits2_pos p) - 1)). intros; lia.
  - rewrite Pos2Z.inj_succ, (Pos2Z.inj_xO p).
    replace (Z.succ (Zpos (digits2_pos p)) - 1)
      with (Z.succ (Zpos (digits2_pos p) - 1)) by lia.
    rewrite Z.pow_succ_r by lia.
    revert IH. generalize (2 ^ (Zpos (digits2_pos p) - 1)). intros; lia.
  - simpl. lia.
Qed.

Lemma digits2_safe (p : positive) :
  Zpos p < 2 ^ 53 -> Zpos (digits2_pos p) <= 53.
Proof.
  intros H. pose proof (digits2_lower p) as Hl.
  destruct (Z_le_gt_dec (Zpos (digits2_pos p)) 53) as [|Hgt]; [assumption|].
  exfalso.
  assert (2 ^ 53 <= 2 ^ (Zpos (digits2_pos p) - 1))
    by (apply Z.pow_le_mono_r; lia).
  lia.
Qed.

Lemma shiftl_shiftl (p : positive) (a b : N) :
  Pos.shiftl (Pos.shiftl p a) b = Pos.shiftl p (a + b).
Proof.
  apply Pos2Z.inj. rewrite !Zpos_shiftl, N2Z.inj_add, Z.pow_add_r by lia.
  ring.
Qed.

(** SpecFloat's own iterator is the usual one. *)
Lemma iter_pos_iter {A : Type} (f : A -> A) (n : positive) :
  forall x, iter_pos f n x = Pos.iter f x n.
Proof.
  induction n as [n IH|n IH|]; intros x; simpl.
  - rewrite !IH, !Pos.iter_swap. reflexivity.
  - rewrite !IH. reflexivity.
  - reflexivity.
Qed.

(** Shifting right the zeros that were shifted in loses nothing. *)
Lemma shr_zeros (q n : positive) :
  iter_pos shr_1 n
    {| shr_m := Zpos (Pos.iter xO q n); shr_r := false; shr_s := false |} =
  {| shr_m := Zpos q; shr_r := false; shr_s := false |}.
Proof.
  rewrite iter_pos_iter.
  induction n as [|n IH] using Pos.peano_ind.
  - reflexivity.
  - rewrite Pos.iter_succ_r, Pos.iter_succ. simpl. exact IH.
Qed.

(** A 53-bit mantissa followed by [j] zero bits is shifted back to 53 bits,
    exactly. *)
Lemma shr_fexp_shifted (q : positive) (j : N) (e : Z) :
  Zpos (digits2_pos q) = 53 -> -1074 <= e ->
  shr_fexp prec emax (Zpos (Pos.shiftl q j)) (e - Z.of_N j) loc_Exact =
  ({| shr_m := Zpos q; shr_r := false; shr_s := false |}, e).
Proof.
  intros Hd He. unfold shr_fexp, fexp, emin, Zdigits2.
  rewrite digits2_shiftl, Hd. unfold prec, emax.
  replace (Z.max (53 + Z.of_N j + (e - Z.of_N j) - 53) (3 - 1024 - 53)
           - (e - Z.of_N j)) with (Z.of_N j) by lia.
  destruct j as [|n]; simpl.
  - f_equal. lia.
  - rewrite shr_zeros. f_equal. lia.
Qed.

(** Rounding a value that fits 53 bits gives the value. *)
Lemma binary_round_aux_exact (s : bool) (q : positive) (j : N) (e : Z) :
  Zpos (digits2_pos q) = 53 -> -1074 <= e <= 971 ->
  binary_round_aux prec emax s (Zpos (Pos.shiftl q j)) (e - Z.of_N j) loc_Exact
  = S754_finite s q e.
Proof.
  intros Hd He. unfold binary_round_aux.
  rewrite shr_fexp_shifted by lia.
  cbn [shr_m loc_of_shr_record round_nearest_even].
  pose proof (shr_fexp_shifted q 0 e Hd (proj1 He)) as H0.
  cbn [Pos.shiftl Z.of_N] in H0. rewrite Z.sub_0_r in H0. rewrite H0.
  cbn [shr_m].
  replace (e <=? emax - prec) with true; [reflexivity|].
  symmetry. apply Z.leb_le. unfold emax, prec. lia.
Qed.

Lemma shl_align_shifted (p : positive) (k : N) :
  Zpos (digits2_pos p) <= 53 ->
  exists j,
    shl_align (Pos.shiftl p k) (- Z.of_N k) (Zpos (digits2_pos p) - 53) =
    (Pos.shiftl (Pos.shiftl p (Z.to_N (53 - Zpos (digits2_pos p)))) j,
     Zpos (digits2_pos p) - 53 - Z.of_N j).
Proof.
  intros Hd. unfold shl_align.
  destruct (Zpos (digits2_pos p) - 53 - - Z.of_N k) as [|n|n] eqn:E.
  - exists 0%N. cbn [Pos.shiftl Z.of_N]. f_equal; [f_equal|]; lia.
  - exists (Npos n). rewrite shiftl_shiftl. f_equal; [f_equal|]; lia.
  - exists 0%N. change (Pos.iter xO (Pos.shiftl p k) n)
      with (Pos.shiftl (Pos.shiftl p k) (Npos n)).
    rewrite shiftl_shiftl. cbn [Pos.shiftl Z.of_N]. f_equal; [f_equal|]; lia.
Qed.

(** Rounding [p * 2^k] at exponent [-k] gives the number of [p]. *)
Lemma binary_round_shifted (s : bool) (p : positive) (k : N) :
  Zpos (digits2_pos p) <= 53 ->
  binary_round prec emax s (Pos.shiftl p k) (- Z.of_N k) = canon s p.
Proof.
  intros Hd. unfold binary_round.
  assert (Hf : fexp prec emax
                 (Zpos (digits2_pos (Pos.shiftl p k)) + - Z.of_N k) =
               Zpos (digits2_pos p) - 53).
  { unfold fexp, emin, prec, emax. rewrite digits2_shiftl. lia. }
  rewrite Hf.
  destruct (shl_align_shifted p k Hd) as (j & ->).
  apply binary_round_aux_exact.
  - rewrite digits2_shiftl. lia.
  - lia.
Qed.

Lemma of_Z_pos (p : positive) :
  Zpos p < 2 ^ 53 -> of_Z (Zpos p) = canon false p.
Proof.
  intros H. apply digits2_safe in H.
  exact (binary_round_shifted false p 0 H).
Qed.

Lemma of_Z_neg (p : positive) :
  Zpos p < 2 ^ 53 -> of_Z (Zneg p) = canon true p.
Proof.
  intros H. apply digits2_safe in H.
  exact (binary_round_shifted true p 0 H).
Qed.

(** Normalising [c * 2^k] at exponent [-k] gives the number of the safe
    integer [c]. *)
Lemma binary_normalize_scaled (c : Z) (k : N) :
  safe c ->
  binary_normalize prec emax (c * 2 ^ Z.of_N k) (- Z.of_N k) false = of_Z c.
Proof.
  unfold safe. intros Hc.
  destruct c as [|p|p].
  - reflexivity.
  - rewrite <- Zpos_shiftl. cbn [binary_normalize].
    rewrite binary_round_shifted by (apply digits2_safe; lia).
    symmetry. apply of_Z_pos. lia.
  - change (Zneg p) with (- Zpos p). rewrite Z.mul_opp_l, <- Zpos_shiftl.
    cbn [Z.opp binary_normalize].
    rewrite binary_round_shifted by (apply digits2_safe; lia).
    symmetry. apply (of_Z_neg p). lia.
Qed.

Lemma of_Z_signed (s : bool) (p : positive) :
  Zpos p < 2 ^ 53 -> of_Z (cond_Zopp s (Zpos p)) = canon s p.
Proof.
  destruct s; [apply of_Z_neg | apply of_Z_pos].
Qed.

Lemma signed_cases (a : Z) :
  a = 0 \/ exists s p, a = cond_Zopp s (Zpos p).
Proof.
  destruct a as [|p|p]; [left; reflexivity | right | right].
  - exists false, p. reflexivity.
  - exists true, p. reflexivity.
Qed.

Lemma shl_align_fst (mx : positive) (ex ez : Z) :
  ez <= ex -> Zpos (fst (shl_align mx ex ez)) = Zpos mx * 2 ^ (ex - ez).
Proof.
  intros H. unfold shl_align.
  destruct (ez - ex) as [|d|d] eqn:E; cbn [fst].
  - replace (ex - ez) with 0 by lia. lia.
  - lia.
  - rewrite Zpos_iter_xO. f_equal. f_equal. lia.
Qed.

(** The mantissa of [canon s p], aligned to a smaller exponent [ez], is
    [p * 2^(-ez)]. *)
Lemma canon_aligned (p : positive) (ez : Z) :
  Zpos (digits2_pos p) <= 53 -> ez <= Zpos (digits2_pos p) - 53 ->
  Zpos (fst (shl_align
               (Pos.shiftl p (Z.to_N (53 - Zpos (digits2_pos p))))
               (Zpos (digits2_pos p) - 53) ez)) =
  Zpos p * 2 ^ (- ez).
Proof.
  intros Hd He. rewrite shl_align_fst by exact He.
  rewrite Zpos_shiftl, <- Z.mul_assoc, <- Z.pow_add_r by lia.
  f_equal. f_equal. lia.
Qed.

Lemma cond_Zopp_mul (s : bool) (x y : Z) :
  cond_Zopp s (x * y) = cond_Zopp s x * y.
Proof. destruct s; simpl; lia. Qed.

Lemma abs_cond_Zopp (s : bool) (p : positive) :
  Z.abs (cond_Zopp s (Zpos p)) = Zpos p.
Proof. destruct s; reflexivity. Qed.

(** Subtraction of safe integers with a safe difference is exact. *)
Lemma sub_of_Z (a b : Z) :
  safe a -> safe b -> safe (a - b) -> sub (of_Z a) (of_Z b) = of_Z (a - b).
Proof.
  unfold safe. intros Ha Hb Hc.
  destruct (signed_cases a) as [->|(sa & pa & ->)];
    destruct (signed_cases b) as [->|(sb & pb & ->)].
  - reflexivity.
  - rewrite abs_cond_Zopp in Hb.
    replace (0 - cond_Zopp sb (Zpos pb)) with (cond_Zopp (negb sb) (Zpos pb))
      by (destruct sb; reflexivity).
    rewrite !of_Z_signed by assumption. reflexivity.
  - rewrite abs_cond_Zopp in Ha. rewrite Z.sub_0_r.
    rewrite !of_Z_signed by assumption. reflexivity.
  - rewrite abs_cond_Zopp in Ha, Hb.
    pose proof (digits2_safe pa Ha) as Hda.
    pose proof (digits2_safe pb Hb) as Hdb.
    rewrite (of_Z_signed sa pa Ha), (of_Z_signed sb pb Hb).
    unfold sub, SFsub, canon.
    set (ez := Z.min (Zpos (digits2_pos pa) - 53) (Zpos (digits2_pos pb) - 53)).
    rewrite !canon_aligned by (unfold ez; lia).
    rewrite !cond_Zopp_mul, <- Z.mul_sub_distr_r.
    replace ez with (- Z.of_N (Z.to_N (- ez))) at 2 by (unfold ez; lia).
    replace (- ez) with (Z.of_N (Z.to_N (- ez))) at 1 by (unfold ez; lia).
    apply binary_normalize_scaled. exact Hc.
Qed.

(** Addition of safe integers with a safe sum is exact. *)
Lemma add_of_Z (a b : Z) :
  safe a -> safe b -> safe (a + b) -> add (of_Z a) (of_Z b) = of_Z (a + b).
Proof.
  unfold safe. intros Ha Hb Hc.
  destruct (signed_cases a) as [->|(sa & pa & ->)];
    destruct (signed_cases b) as [->|(sb & pb & ->)].
  - reflexivity.
  - rewrite abs_cond_Zopp in Hb. rewrite Z.add_0_l.
    rewrite !of_Z_signed by assumption. reflexivity.
  - rewrite abs_cond_Zopp in Ha. rewrite Z.add_0_r.
    rewrite !of_Z_signed by assumption. reflexivity.
  - rewrite abs_cond_Zopp in Ha, Hb.
    pose proof (digits2_safe pa Ha) as Hda.
    pose proof (digits2_safe pb Hb) as Hdb.
    rewrite (of_Z_signed sa pa Ha), (of_Z_signed sb pb Hb).
    unfold add, SFadd, canon.
    set (ez := Z.min (Zpos (digits2_pos pa) - 53) (Zpos (digits2_pos pb) - 53)).
    rewrite !canon_aligned by (unfold ez; lia).
    rewrite !cond_Zopp_mul, <- Z.mul_add_distr_r.
    replace ez with (- Z.of_N (Z.to_N (- ez))) at 2 by (unfold ez; lia).
    replace (- ez) with (Z.of_N (Z.to_N (- ez))) at 1 by (unfold ez; lia).
    apply binary_normalize_scaled. exact Hc.
Qed.

Lemma of_Z_cases (a : Z) :
  safe a ->
  (a = 0 /\ of_Z a = S754_zero false) \/
  (exists s p, a = cond_Zopp s (Zpos p) /\ Zpos p < 2 ^ 53 /\
               of_Z a = canon s p).
Proof.
  unfold safe. intros Ha.
  destruct (signed_cases a) as [->|(s & p & ->)].
  - left. split; reflexivity.
  - right. exists s, p. rewrite abs_cond_Zopp in Ha.
    split; [reflexivity|]. split; [exact Ha|]. now apply of_Z_signed.
Qed.

Lemma of_Z_finite (a : Z) : safe a -> is_finite (of_Z a) = true.
Proof.
  intros Ha.
  destruct (of_Z_cases a Ha) as [[_ ->]|(s & p & _ & _ & ->)]; reflexivity.
Qed.

Lemma canon_inj (s1 s2 : bool) (p1 p2 : positive) :
  canon s1 p1 = canon s2 p2 -> s1 = s2 /\ p1 = p2.
Proof.
  unfold canon. intros H.
  pose proof (f_equal (fun x => match x with
                                | S754_finite s _ _ => s
                                | _ => false
                                end) H) as Hs.
  pose proof (f_equal (fun x => match x with
                                | S754_finite _ m _ => Zpos m
                                | _ => 0
                                end) H) as Hm.
  pose proof (f_equal (fun x => match x with
                                | S754_finite _ _ e => e
                                | _ => 0
                                end) H) as He.
  cbv beta iota in Hs, Hm, He.
  split; [exact Hs|].
  assert (Hd : Zpos (digits2_pos p1) = Zpos (digits2_pos p2)) by lia.
  rewrite Hd in Hm.
  rewrite !Zpos_shiftl in Hm.
  apply Z.mul_reg_r in Hm; [congruence|].
  apply Z.pow_nonzero; lia.
Qed.

Lemma of_Z_inj (a b : Z) : safe a -> safe b -> of_Z a = of_Z b -> a = b.
Proof.
  intros Ha Hb H.
  destruct (of_Z_cases a Ha) as [[-> Ea]|(sa & pa & -> & _ & Ea)];
    destruct (of_Z_cases b Hb) as [[-> Eb]|(sb & pb & -> & _ & Eb)];
    rewrite ?Ea, ?Eb in H; try discriminate H; [reflexivity|].
  apply canon_inj in H. destruct H as [-> ->]. reflexivity.
Qed.

(** On safe integers [===] is equality of integers. *)
Lemma strict_eq_of_Z (a b : Z) :
  safe a -> safe b -> strict_eq (of_Z a) (of_Z b) = (a =? b).
Proof.
  intros Ha Hb. destruct (Z.eqb_spec a b) as [->|Hne].
  - apply strict_eq_refl, finite_not_nan, of_Z_finite, Hb.
  - destruct (strict_eq (of_Z a) (of_Z b)) eqn:E; [exfalso|reflexivity].
    apply Hne.
    destruct (strict_eq_inv _ _ E) as [[H _]|(s1 & s2 & H1 & H2)].
    + now apply of_Z_inj.
    + destruct (of_Z_cases a Ha) as [[-> _]|(sa & pa & _ & _ & Ea)];
        [|rewrite Ea in H1; discriminate H1].
      destruct (of_Z_cases b Hb) as [[-> _]|(sb & pb & _ & _ & Eb)];
        [reflexivity|rewrite Eb in H2; discriminate H2].
Qed.

End Integers.

(** ** Sequences of safe integers *)

Section IntegerSequences.

Lemma nth_ints (zs : list Z) (i : nat) :
  (i < List.length zs)%nat -> nth i (ints zs) NaN = of_Z (nth i zs 0%Z).
Proof.
  intros Hi. unfold ints.
  rewrite (nth_indep _ NaN (of_Z 0)) by (rewrite length_map; exact Hi).
  apply map_nth.
Qed.

Lemma safe_nth (zs : list Z) (i : nat) :
  Forall safe zs -> (i < List.length zs)%nat -> safe (nth i zs 0%Z).
Proof.
  intros Hs Hi. rewrite Forall_forall in Hs. apply Hs, nth_In, Hi.
Qed.

Lemma ints_finite (zs : list Z) :
  Forall safe zs -> forallb is_finite (ints zs) = true.
Proof.
  intros Hs. apply forallb_forall. intros x Hx.
  apply in_map_iff in Hx. destruct Hx as (z & <- & Hz).
  rewrite Forall_forall in Hs. apply of_Z_finite, Hs, Hz.
Qed.

(** The [i]-th difference of an array of safe integers, when it is safe, is
    the difference of the integers. *)
Lemma difference_ints (zs : list Z) (i : nat) :
  Forall safe zs -> (1 <= i < List.length zs)%nat ->
  safe (nth i zs 0 - nth (i - 1) zs 0)%Z ->
  sub (nth i (ints zs) NaN) (nth (i - 1) (ints zs) NaN) =
  of_Z (nth i zs 0 - nth (i - 1) zs 0)%Z.
Proof.
  intros Hs Hi Hd. rewrite !nth_ints by lia.
  apply sub_of_Z; trivial; apply safe_nth; trivial; lia.
Qed.

End IntegerSequences.

(** X1: on an array of at least two safe integers (at most 2^53 - 1 in
    absolute value) whose consecutive differences are safe too,
    [validateSequence] answers [isValid: true] exactly when the integer
    differences [z[i] - z[i-1]] are all equal, and the [difference] it
    returns is then that integer: floating point loses nothing there. *)
Theorem validateSequence_safe_integers (zs : list Z) (this : EchoChamber) :
  (2 <= List.length zs)%nat ->
  Forall safe zs ->
  (forall i, (1 <= i < List.length zs)%nat ->
             safe (nth i zs 0 - nth (i - 1) zs 0)%Z) ->
  let r := fst (validateSequence (array_of (ints zs)) this) in
  let d := (nth 1 zs 0 - nth 0 zs 0)%Z in
  (isValid r = true <->
   forall i, (1 <= i < List.length zs)%nat ->
             (nth i zs 0 - nth (i - 1) zs 0)%Z = d) /\
  (isValid r = true -> difference r = Some (of_Z d)).
Proof.
  intros Hlen Hs Hd r d.
  assert (Hlen' : (2 <= List.length (ints zs))%nat)
    by (unfold ints; rewrite length_map; exact Hlen).
  pose proof (validateSequence_numbers (ints zs) this Hlen'
                (forallb_finite_not_nan _ (ints_finite zs Hs))) as Hv.
  fold (array_of (ints zs)) in Hv. fold r in Hv. cbn zeta in Hv.
  assert (Hd0 : sub (nth 1 (ints zs) NaN) (nth 0 (ints zs) NaN) = of_Z d).
  { apply (difference_ints zs 1 Hs); [lia | apply Hd; lia]. }
  rewrite Hd0 in Hv.
  assert (Hiff : forallb (fun x => strict_eq x (of_Z d)) (differences (ints zs))
                 = true <->
                 forall i, (1 <= i < List.length zs)%nat ->
                           (nth i zs 0 - nth (i - 1) zs 0)%Z = d).
  { rewrite forallb_differences. unfold ints at 1. rewrite length_map.
    split; intros H i Hi; specialize (H i Hi);
      rewrite difference_ints, strict_eq_of_Z in * by
        (trivial; try apply Hd; try (apply (Hd 1%nat)); lia).
    - now apply Z.eqb_eq.
    - now apply Z.eqb_eq. }
  destruct (forallb _ (differences (ints zs))); rewrite Hv; cbn.
  - split; [|reflexivity]. split; [intros _; now apply Hiff | reflexivity].
  - split; [|discriminate]. split; [discriminate|].
    intros H. apply Hiff in H. discriminate H.
Qed.

Lemma validateSequence_safe_integers_witness :
  let r := fst (validateSequence (array_of (ints demo_ints)) new_EchoChamber) in
  let d := (nth 1 demo_ints 0 - nth 0 demo_ints 0)%Z in
  (isValid r = true <->
   forall i, (1 <= i < List.length demo_ints)%nat ->
             (nth i demo_ints 0 - nth (i - 1) demo_ints 0)%Z = d) /\
  (isValid r = true -> difference r = Some (of_Z d)).
Proof.
  apply (validateSequence_safe_integers demo_ints new_EchoChamber).
  - simpl. lia.
  - all_safe.
  - intros i Hi. index_cases i Hi; vm_compute; reflexivity.
Defined.

Section IntegerPredictions.

(** An arithmetic progression of safe integers with a safe step is valid,
    with the step as difference. *)
Lemma validateSequence_ints (zs : list Z) (d : Z) (this : EchoChamber) :
  (2 <= List.length zs)%nat ->
  Forall safe zs -> safe d ->
  (forall i, (1 <= i < List.length zs)%nat ->
             (nth i zs 0 - nth (i - 1) zs 0)%Z = d) ->
  fst (validateSequence (array_of (ints zs)) this) =
    {| isValid := true; difference := Some (of_Z d); v_message := msg_valid |}.
Proof.
  intros Hlen Hs Hd Hstep.
  assert (Hlen' : (2 <= List.length (ints zs))%nat)
    by (unfold ints; rewrite length_map; exact Hlen).
  assert (Hdiff : forall i, (1 <= i < List.length zs)%nat ->
            sub (nth i (ints zs) NaN) (nth (i - 1) (ints zs) NaN) = of_Z d).
  { intros i Hi. rewrite difference_ints; trivial; rewrite Hstep; trivial. }
  unfold array_of.
  rewrite (validateSequence_numbers (ints zs) this Hlen'
             (forallb_finite_not_nan _ (ints_finite zs Hs))).
  cbn zeta. pose proof (Hdiff 1%nat ltac:(lia)) as H1.
  cbn [Nat.sub] in H1. rewrite H1.
  replace (forallb (fun x => strict_eq x (of_Z d)) (differences (ints zs)))
    with true; [reflexivity|].
  symmetry. apply forallb_differences. intros i Hi.
  unfold ints in Hi. rewrite length_map in Hi.
  rewrite Hdiff by exact Hi.
  apply strict_eq_refl, finite_not_nan, of_Z_finite, Hd.
Qed.

Lemma nth_last_app (zs : list Z) (z : Z) (i : nat) :
  (i <= List.length zs)%nat ->
  nth i (zs ++ [z]) 0%Z = if (i =? List.length zs)%nat then z else nth i zs 0%Z.
Proof.
  intros Hi. destruct (Nat.eqb_spec i (List.length zs)) as [->|Hne].
  - rewrite app_nth2, Nat.sub_diag by lia. reflexivity.
  - apply app_nth1. lia.
Qed.

(** The prediction on an arithmetic progression of safe integers. *)
Lemma predictNext_ints
  (zs : list Z) (d : Z) (now : string) (this : EchoChamber) :
  (2 <= List.length zs)%nat ->
  Forall safe zs -> safe d ->
  safe (nth (List.length zs - 1) zs 0 + d)%Z ->
  (forall i, (1 <= i < List.length zs)%nat ->
             (nth i zs 0 - nth (i - 1) zs 0)%Z = d) ->
  fst (predictNext (array_of (ints zs)) now this) =
    {| success := true;
       nextNumber := Some (of_Z (nth (List.length zs - 1) zs 0 + d)%Z);
       commonDifference := Some (of_Z d);
       p_message := NextNumberIs (of_Z (nth (List.length zs - 1) zs 0 + d)%Z) |}.
Proof.
  intros Hlen Hs Hd Hnext Hstep.
  pose proof (validateSequence_ints zs d this Hlen Hs Hd Hstep) as Hv.
  unfold predictNext.
  destruct (validateSequence (array_of (ints zs)) this) as [v this'].
  cbn [fst] in Hv. subst v. cbn [isValid negb difference fst].
  unfold array_of at 1 2. cbn [spread]. rewrite numbers_map_Number.
  assert (Hl : last_plus (ints zs) (Some (of_Z d)) =
               of_Z (nth (List.length zs - 1) zs 0 + d)%Z).
  { unfold last_plus, ints at 2. rewrite length_map.
    rewrite (nth_error_nth' (ints zs) NaN)
      by (unfold ints; rewrite length_map; lia).
    rewrite nth_ints by lia.
    apply add_of_Z; trivial. apply safe_nth; trivial; lia. }
  rewrite Hl. reflexivity.
Qed.

End IntegerPredictions.

(** X2: for an arithmetic progression of at least two safe integers with a
    safe step [d], such that the last element plus [d] is safe,
    [predictNext] returns exactly the integers: [commonDifference] is [d]
    and [nextNumber] is the last element plus [d]. *)
Theorem predictNext_safe_integers
  (zs : list Z) (d : Z) (now : string) (this : EchoChamber) :
  (2 <= List.length zs)%nat ->
  Forall safe zs -> safe d ->
  safe (nth (List.length zs - 1) zs 0 + d)%Z ->
  (forall i, (1 <= i < List.length zs)%nat ->
             (nth i zs 0 - nth (i - 1) zs 0)%Z = d) ->
  fst (predictNext (array_of (ints zs)) now this) =
    {| success := true;
       nextNumber := Some (of_Z (nth (List.length zs - 1) zs 0 + d)%Z);
       commonDifference := Some (of_Z d);
       p_message := NextNumberIs (of_Z (nth (List.length zs - 1) zs 0 + d)%Z) |}.
Proof.
  exact (predictNext_ints zs d now this).
Qed.

Lemma predictNext_safe_integers_witness :
  fst (predictNext (array_of (ints demo_ints)) "10:00:05 AM" one_echo) =
    {| success := true;
       nextNumber :=
         Some (of_Z (nth (List.length demo_ints - 1) demo_ints 0 + 3)%Z);
       commonDifference := Some (of_Z 3);
       p_message :=
         NextNumberIs
           (of_Z (nth (List.length demo_ints - 1) demo_ints 0 + 3)%Z) |}.
Proof.
  apply (predictNext_safe_integers demo_ints 3 "10:00:05 AM" one_echo).
  - simpl. lia.
  - all_safe.
  - vm_compute. reflexivity.
  - vm_compute. reflexivity.
  - intros i Hi. index_cases i Hi; reflexivity.
Defined.

(** X3: under the same conditions, the predicted number continues the
    progression: the array extended by the [nextNumber] that [predictNext]
    returned is valid again, with the same [difference]. *)
Theorem prediction_extends_progression
  (zs : list Z) (d : Z) (now : string) (this this' : EchoChamber) :
  (2 <= List.length zs)%nat ->
  Forall safe zs -> safe d ->
  safe (nth (List.length zs - 1) zs 0 + d)%Z ->
  (forall i, (1 <= i < List.length zs)%nat ->
             (nth i zs 0 - nth (i - 1) zs 0)%Z = d) ->
  exists next,
    nextNumber (fst (predictNext (array_of (ints zs)) now this)) = Some next /\
    fst (validateSequence (array_of (ints zs ++ [next])) this') =
      {| isValid := true; difference := Some (of_Z d); v_message := msg_valid |}.
Proof.
  intros Hlen Hs Hd Hnext Hstep.
  exists (of_Z (nth (List.length zs - 1) zs 0 + d)%Z). split.
  - rewrite (predictNext_ints zs d now this); trivial.
  - change (ints zs ++ [of_Z (nth (List.length zs - 1) zs 0 + d)%Z])
      with (ints zs ++ ints [(nth (List.length zs - 1) zs 0 + d)%Z]).
    unfold ints. rewrite <- map_app. fold (ints (zs ++ [(nth (List.length zs - 1) zs 0 + d)%Z])).
    apply validateSequence_ints; trivial.
    + rewrite length_app. simpl. lia.
    + apply Forall_app. split; [exact Hs|]. constructor; [exact Hnext|constructor].
    + intros i Hi. rewrite length_app in Hi. simpl in Hi.
      rewrite !nth_last_app by lia.
      destruct (Nat.eqb_spec i (List.length zs)) as [->|Hne].
      * destruct (Nat.eqb_spec (List.length zs - 1) (List.length zs)); lia.
      * destruct (Nat.eqb_spec (i - 1) (List.length zs)); [lia|].
        apply Hstep. lia.
Qed.

Lemma prediction_extends_progression_witness :
  exists next,
    nextNumber (fst (predictNext (array_of (ints demo_ints)) "10:00:05 AM"
                       one_echo)) = Some next /\
    fst (validateSequence (array_of (ints demo_ints ++ [next]))
           new_EchoChamber) =
      {| isValid := true; difference := Some (of_Z 3); v_message := msg_valid |}.
Proof.
  apply (prediction_extends_progression demo_ints 3 "10:00:05 AM" one_echo
           new_EchoChamber).
  - simpl. lia.
  - all_safe.
  - vm_compute. reflexivity.
  - vm_compute. reflexivity.
  - intros i Hi. index_cases i Hi; reflexivity.
Defined.

(** Beyond the safe integers the prediction is rounded and need not
    continue the progression: [[1, 2^53]] has difference [2^53 - 1], the
    prediction [2^54 - 1] is rounded to [2^54], and [[1, 2^53, 2^54]] is
    rejected. *)
Example prediction_beyond_safe_integers :
  fst (predictNext (array_of (ints [1; 2 ^ 53]%Z)) "t" new_EchoChamber) =
    {| success := true;
       nextNumber := Some (of_Z (2 ^ 54));
       commonDifference := Some (of_Z (2 ^ 53 - 1));
       p_message := NextNumberIs (of_Z (2 ^ 54)) |} /\
  isValid (fst (validateSequence (array_of (ints [1; 2 ^ 53; 2 ^ 54]%Z))
                  new_EchoChamber)) = false.
Proof. split; vm_compute; reflexivity. Qed.

(** ** Which check failed *)

Section Messages.

Lemma not_valid_number (v : value) :
  (forall n, v <> Number n) \/ v = Number NaN -> valid_number v = false.
Proof.
  intros [H| ->]; [|reflexivity].
  destruct v; try reflexivity. exfalso. exact (H n eq_refl).
Qed.

Lemma forallb_valid_number_false (elems : list value) (v : value) :
  In v elems -> valid_number v = false -> forallb valid_number elems = false.
Proof.
  intros Hin Hv. destruct (forallb valid_number elems) eqn:E; [|reflexivity].
  rewrite forallb_forall in E. rewrite (E v Hin) in Hv. discriminate Hv.
Qed.

End Messages.

(** X4: the message of [validateSequence] tells which check failed, the
    checks being made in this order: not an array; fewer than two elements;
    an element that is not a number or is NaN; valid elements but a result
    that is not valid (the differences are not constant); success.  The five
    messages are pairwise different. *)
Theorem validateSequence_message (sequence : value) (this : EchoChamber) :
  let r := fst (validateSequence sequence this) in
  (isArray sequence = false -> v_message r = msg_not_array) /\
  (forall elems, sequence = Array elems ->
     ((List.length elems < 2)%nat -> v_message r = msg_too_short) /\
     ((2 <= List.length elems)%nat ->
      (exists v, In v elems /\ ((forall n, v <> Number n) \/ v = Number NaN)) ->
      v_message r = msg_not_numbers) /\
     ((2 <= List.length elems)%nat ->
      (forall v, In v elems -> exists n, v = Number n /\ is_nan n = false) ->
      isValid r = false -> v_message r = msg_not_arithmetic)) /\
  (isValid r = true -> v_message r = msg_valid) /\
  NoDup [msg_not_array; msg_too_short; msg_not_numbers; msg_not_arithmetic;
         msg_valid].
Proof.
  intros r. split; [|split; [|split]].
  - subst r. destruct sequence; try reflexivity. discriminate.
  - intros elems ->. subst r. unfold validateSequence.
    cbn [fst isArray negb spread]. split; [|split].
    + intros H. apply Nat.ltb_lt in H. rewrite H. reflexivity.
    + intros H (v & Hin & Hv). apply Nat.ltb_ge in H. rewrite H.
      rewrite (forallb_valid_number_false elems v Hin (not_valid_number v Hv)).
      reflexivity.
    + intros H Hall. apply Nat.ltb_ge in H. rewrite H.
      replace (forallb valid_number elems) with true.
      * cbn [negb]. cbn zeta.
        destruct (forallb _ (differences (numbers elems)));
          [discriminate | reflexivity].
      * symmetry. apply forallb_forall. intros v Hv.
        destruct (Hall v Hv) as (n & -> & Hn).
        rewrite valid_number_Number, Hn. reflexivity.
  - subst r. unfold validateSequence. cbn [fst].
    destruct (negb (isArray sequence)); [discriminate|].
    cbn zeta. destruct (List.length (spread sequence) <? 2)%nat; [discriminate|].
    destruct (negb (forallb valid_number (spread sequence))); [discriminate|].
    destruct (negb (forallb _ _)); [discriminate|reflexivity].
  - repeat constructor; simpl; intuition discriminate.
Qed.

(** X5: an array of two numbers, neither of them NaN, is valid exactly when
    their difference is not NaN (they are not the same infinity) and its
    [difference] is then the second minus the first; two finite numbers are
    always valid. *)
Theorem validateSequence_two_numbers (a b : number) (this : EchoChamber) :
  is_nan a = false -> is_nan b = false ->
  let r := fst (validateSequence (array_of [a; b]) this) in
  (isValid r = negb (is_nan (sub b a))) /\
  (isValid r = true -> difference r = Some (sub b a)) /\
  (is_finite a = true -> is_finite b = true -> isValid r = true).
Proof.
  intros Ha Hb r.
  assert (Hr : r = if strict_eq (sub b a) (sub b a) && true
                   then {| isValid := true; difference := Some (sub b a);
                           v_message := msg_valid |}
                   else invalid msg_not_arithmetic).
  { subst r. unfold array_of.
    rewrite validateSequence_numbers; [reflexivity | simpl; lia |].
    simpl. now rewrite Ha, Hb. }
  assert (He : strict_eq (sub b a) (sub b a) = negb (is_nan (sub b a))).
  { destruct (is_nan (sub b a)) eqn:E.
    - destruct (sub b a); try discriminate E. reflexivity.
    - now apply strict_eq_refl. }
  rewrite andb_true_r, He in Hr.
  split; [|split].
  - rewrite Hr. destruct (is_nan (sub b a)); reflexivity.
  - rewrite Hr. destruct (is_nan (sub b a)); [discriminate|reflexivity].
  - intros Hfa Hfb. rewrite Hr, (sub_finite_not_nan b a Hfb Hfa). reflexivity.
Qed.

Lemma validateSequence_two_numbers_witness :
  let r := fst (validateSequence (array_of [of_Z 1; Infinity]) new_EchoChamber) in
  (isValid r = negb (is_nan (sub Infinity (of_Z 1)))) /\
  (isValid r = true -> difference r = Some (sub Infinity (of_Z 1))) /\
  (is_finite (of_Z 1) = true -> is_finite Infinity = true -> isValid r = true).
Proof.
  apply (validateSequence_two_numbers (of_Z 1) Infinity new_EchoChamber);
    reflexivity.
Defined.

(** X6: in a valid array only the first and the last element can be
    infinite: every element in between is finite. *)
Theorem valid_middle_finite (xs : list number) (this : EchoChamber) (i : nat) :
  isValid (fst (validateSequence (array_of xs) this)) = true ->
  (1 <= i)%nat -> (i + 1 < List.length xs)%nat ->
  is_finite (nth i xs NaN) = true.
Proof.
  intros Hv Hi1 Hi2.
  destruct (validateSequence_valid_inv _ _ Hv) as (xs' & He & Hlen & Hnum).
  unfold array_of in He. injection He as He.
  assert (xs' = xs) as ->.
  { rewrite <- (numbers_map_Number xs), <- (numbers_map_Number xs'). now rewrite He. }
  unfold array_of in Hv. rewrite validateSequence_numbers in Hv by assumption.
  cbn zeta in Hv.
  destruct (forallb _ (differences xs)) eqn:Hall; [|discriminate Hv].
  rewrite forallb_differences in Hall.
  pose proof (Hall i ltac:(lia)) as H1.
  pose proof (Hall (S i) ltac:(lia)) as H2.
  replace (S i - 1)%nat with i in H2 by lia.
  pose proof (strict_eq_trans _ _ _ H1 (strict_eq_sym _ _ H2)) as H.
  destruct (nth i xs NaN) as [s|s| |s m e]; try reflexivity; exfalso.
  - destruct (nth (i - 1) xs NaN) as [s1|s1| |s1 m1 e1],
             (nth (S i) xs NaN) as [s2|s2| |s2 m2 e2];
      destruct s; try destruct s1; try destruct s2; discriminate H.
  - destruct (nth (i - 1) xs NaN); discriminate H.
Qed.

Lemma valid_middle_finite_witness :
  is_finite (nth 1 (ints demo_ints) NaN) = true.
Proof.
  apply (valid_middle_finite (ints demo_ints) new_EchoChamber 1).
  - vm_compute. reflexivity.
  - lia.
  - simpl. lia.
Defined.

(** The ends can be infinite: [[-Infinity, -2^1023, 2^1023]] is valid, its
    two differences being [Infinity] (the second by overflow). *)
Example valid_infinite_end :
  fst (validateSequence
         (array_of [S754_infinity true; of_Z (- 2 ^ 1023); of_Z (2 ^ 1023)])
         new_EchoChamber) =
    {| isValid := true; difference := Some Infinity; v_message := msg_valid |}.
Proof. vm_compute. reflexivity. Qed.

(** ** What the history holds *)

Section Echoes.

(** A successful [predictNext], spelled out. *)
Lemma predictNext_success (s : value) (now : string) (this : EchoChamber) :
  success (fst (predictNext s now this)) = true ->
  exists xs d,
    s = array_of xs /\
    (2 <= List.length xs)%nat /\
    d = sub (nth 1 xs NaN) (nth 0 xs NaN) /\
    (forall i, (1 <= i < List.length xs)%nat ->
               strict_eq (sub (nth i xs NaN) (nth (i - 1) xs NaN)) d = true) /\
    predictNext s now this =
      ({| success := true;
          nextNumber := Some (add (nth (List.length xs - 1) xs NaN) d);
          commonDifference := Some d;
          p_message := NextNumberIs (add (nth (List.length xs - 1) xs NaN) d) |},
       {| echoMemories :=
            echoMemories this ++
            [ {| sequence := map Number xs;
                 m_nextNumber := add (nth (List.length xs - 1) xs NaN) d;
                 m_commonDifference := Some d;
                 timestamp := now;
                 predictionIndex := predictionCount this + 1 |} ];
          predictionCount := predictionCount this + 1 |}).
Proof.
  intros Hs.
  assert (Hv : isValid (fst (validateSequence s this)) = true).
  { revert Hs. unfold predictNext.
    destruct (validateSequence s this) as [v t]. cbn [fst].
    destruct (isValid v); [reflexivity | discriminate]. }
  destruct (validateSequence_valid_inv _ _ Hv) as (xs & -> & Hlen & Hnum).
  exists xs, (sub (nth 1 xs NaN) (nth 0 xs NaN)).
  split; [reflexivity|]. split; [exact Hlen|]. split; [reflexivity|].
  pose proof (validateSequence_numbers xs this Hlen Hnum) as Hr.
  cbn zeta in Hr. rewrite Hr in Hv.
  destruct (forallb _ (differences xs)) eqn:Hall; [|discriminate Hv].
  split; [exact (proj1 (forallb_differences _ xs) Hall)|].
  unfold predictNext.
  pose proof (validateSequence_this (Array (map Number xs)) this) as Ht.
  destruct (validateSequence (Array (map Number xs)) this) as [v t].
  cbn [fst snd] in Hr, Ht. subst v t.
  cbn [isValid negb difference spread]. rewrite numbers_map_Number.
  unfold last_plus. rewrite (nth_error_nth' xs NaN) by lia. reflexivity.
Qed.

Lemma run_call_records (c : call) (this : EchoChamber) :
  Forall progression_record (echoMemories this) ->
  Forall progression_record (echoMemories (run_call c this)).
Proof.
  intros H. destruct c as [s|s now| |]; cbn [run_call];
    [exact H | | exact H | constructor].
  destruct (success (fst (predictNext s now this))) eqn:Hs.
  - destruct (predictNext_success s now this Hs)
      as (xs & d & _ & Hlen & Hd & Hstep & ->).
    cbn [snd echoMemories]. apply Forall_app. split; [exact H|].
    constructor; [|constructor].
    exists xs, d. cbn. repeat split; trivial.
  - destruct (predictNext_cases s now this) as [[_ ->]|[Hs' _]];
      [exact H | congruence].
Qed.


Lemma run_calls_invariant (P : EchoChamber -> Prop) :
  (forall c this, P this -> P (run_call c this)) ->
  forall cs this, P this -> P (run_calls cs this).
Proof.
  intros Hstep. induction cs as [|c cs IH]; intros this H; [exact H|].
  rewrite run_calls_cons. apply IH, Hstep, H.
Qed.

End Echoes.

(** X7: after any calls on a fresh instance, every stored echo records an
    arithmetic progression: at least two numbers whose consecutive
    differences are strictly equal to the stored [commonDifference], and a
    stored [nextNumber] that is the last element plus that difference. *)
Theorem stored_echoes_are_progressions (cs : list call) :
  Forall progression_record (echoMemories (run_calls cs new_EchoChamber)).
Proof.
  apply (run_calls_invariant
           (fun this => Forall progression_record (echoMemories this))).
  - exact run_call_records.
  - constructor.
Qed.

(** ** The handlers and the shared chamber *)

Section Handlers.




End Handlers.





(** ** The built-in tests of the console interface *)

Section BuiltInTests.

(** Every built-in test case passes, on any chamber and at any time. *)
Lemma run_test_passes (testCase : UI.TestCase) (now : string)
  (passed failed : Z) (chamber : EchoChamber) :
  In testCase UI.testCases ->
  UI.run_test testCase now (passed, failed, chamber) =
    ((passed + 1)%Z, failed,
     run_call (Call_predictNext (UI.tc_sequence testCase) now) chamber).
Proof.
  intros Hin. unfold UI.run_test, run_call.
  destruct (predictNext (UI.tc_sequence testCase) now chamber) as [r c] eqn:E.
  pose proof (f_equal fst E) as Hr. cbn [fst snd] in Hr |- *.
  simpl in Hin.
  destruct Hin as [<-|[<-|[<-|[<-|[<-|[<-|[]]]]]]];
    vm_compute in Hr; subst r; reflexivity.
Qed.

End BuiltInTests.

(** X12: [runTests] reports 6 passed and 0 failed whatever the chamber of
    the interface holds, and it runs on that chamber: the five sequences it
    predicts are appended to the user's echoes, in order, and the counter
    grows by 5. *)
Theorem runTests_report (clock : nat -> string) (this : UI.EchoChamberUI) :
  fst (UI.runTests clock this) = (6%Z, 0%Z) /\
  exists added,
    echoMemories (UI.chamber (snd (UI.runTests clock this))) =
      echoMemories (UI.chamber this) ++ added /\
    map entry_input added =
      [ (map Number (ints [3; 6; 9; 12]%Z), clock 0%nat);
        (map Number (ints [10; 7; 4; 1]%Z), clock 1%nat);
        (map Number (ints [100; 200; 300; 400]%Z), clock 2%nat);
        (map Number (ints [-5; -3; -1; 1]%Z), clock 3%nat);
        (map Number (ints [1; 2]%Z), clock 4%nat) ] /\
    predictionCount (UI.chamber (snd (UI.runTests clock this))) =
      (predictionCount (UI.chamber this) + 5)%Z.
Proof.
  set (cs := map (fun it => Call_predictNext (UI.tc_sequence (snd it))
                              (clock (fst it)))
                 (combine (seq 0 (List.length UI.testCases)) UI.testCases)).
  assert (Hrun : UI.runTests clock this =
                 ((6%Z, 0%Z), {| UI.chamber := run_calls cs (UI.chamber this) |})).
  { unfold UI.runTests, cs. cbn [UI.testCases List.length seq combine fold_left
                                   map fst snd run_calls].
    rewrite !run_test_passes by (simpl; tauto). reflexivity. }
  rewrite Hrun. cbn [fst snd UI.chamber]. split; [reflexivity|].
  destruct (run_calls_append cs (UI.chamber this) eq_refl)
    as (added & Hm & Hc & Hi & _).
  exists added. split; [exact Hm|].
  assert (Hs : successes cs (UI.chamber this) =
               [ (map Number (ints [3; 6; 9; 12]%Z), clock 0%nat);
                 (map Number (ints [10; 7; 4; 1]%Z), clock 1%nat);
                 (map Number (ints [100; 200; 300; 400]%Z), clock 2%nat);
                 (map Number (ints [-5; -3; -1; 1]%Z), clock 3%nat);
                 (map Number (ints [1; 2]%Z), clock 4%nat) ]).
  { vm_compute. reflexivity. }
  rewrite Hs in Hi. split; [exact Hi|].
  rewrite Hc. apply (f_equal (@List.length _)) in Hi.
  rewrite length_map in Hi. rewrite Hi. reflexivity.
Qed.

(** X13: a successful prediction is never NaN: [nextNumber] and
    [commonDifference] are numbers other than NaN (they can be infinite). *)
Theorem prediction_not_nan (s : value) (now : string) (this : EchoChamber) :
  success (fst (predictNext s now this)) = true ->
  exists next d,
    nextNumber (fst (predictNext s now this)) = Some next /\
    commonDifference (fst (predictNext s now this)) = Some d /\
    is_nan next = false /\ is_nan d = false.
Proof.
  intros Hs.
  destruct (predictNext_success s now this Hs)
    as (xs & d & _ & Hlen & Hd & Hstep & ->).
  cbn [fst nextNumber commonDifference].
  exists (add (nth (List.length xs - 1) xs NaN) d), d.
  split; [reflexivity|]. split; [reflexivity|].
  pose proof (Hstep (List.length xs - 1)%nat ltac:(lia)) as Hl.
  destruct (strict_eq_not_nan _ _ Hl) as [Hn1 Hn2].
  split; [|exact Hn2].
  destruct (nth (List.length xs - 1) xs NaN) as [sl|sl| |sl ml el] eqn:El.
  - apply add_finite_not_nan; trivial.
  - (* an infinite last element: the difference is that infinity *)
    destruct (nth (List.length xs - 1 - 1) xs NaN) as [sp|sp| |sp mp ep];
      destruct d as [sd|sd| |sd md ed]; destruct sl;
      try destruct sp; try destruct sd; try discriminate Hl;
      try discriminate Hn1; reflexivity.
  - destruct (nth (List.length xs - 1 - 1) xs NaN); discriminate Hn1.
  - apply add_finite_not_nan; trivial.
Qed.

Lemma prediction_not_nan_witness :
  exists next d,
    nextNumber (fst (predictNext (array_of [of_Z 1; Infinity]) "10:00:06 AM"
                       one_echo)) = Some next /\
    commonDifference (fst (predictNext (array_of [of_Z 1; Infinity])
                             "10:00:06 AM" one_echo)) = Some d /\
    is_nan next = false /\ is_nan d = false.
Proof.
  apply prediction_not_nan. vm_compute. reflexivity.
Defined.

(** A finite progression can overflow: the numbers stay finite up to
    [2^1023 + 2^1022], and the prediction is [Infinity]. *)
Example prediction_overflow :
  fst (predictNext (array_of (ints [2 ^ 1022; 2 ^ 1023; 2 ^ 1023 + 2 ^ 1022]%Z))
         "t" new_EchoChamber) =
    {| success := true;
       nextNumber := Some Infinity;
       commonDifference := Some (of_Z (2 ^ 1022));
       p_message := NextNumberIs Infinity |}.
Proof. vm_compute. reflexivity. Qed.

(** ** Prefixes and reversal *)

Section Shapes.

(** Validity of an array of numbers, by index. *)
Lemma valid_numbers_iff (xs : list number) (this : EchoChamber) :
  isValid (fst (validateSequence (array_of xs) this)) = true <->
  (2 <= List.length xs)%nat /\
  forallb (fun x => negb (is_nan x)) xs = true /\
  (forall i, (1 <= i < List.length xs)%nat ->
             strict_eq (sub (nth i xs NaN) (nth (i - 1) xs NaN))
                       (sub (nth 1 xs NaN) (nth 0 xs NaN)) = true).
Proof.
  split.
  - intros Hv.
    destruct (validateSequence_valid_inv _ _ Hv) as (xs' & He & Hlen & Hnum).
    unfold array_of in He. injection He as He.
    assert (xs' = xs) as ->.
    { rewrite <- (numbers_map_Number xs), <- (numbers_map_Number xs').
      now rewrite He. }
    split; [exact Hlen|]. split; [exact Hnum|].
    unfold array_of in Hv. rewrite validateSequence_numbers in Hv by assumption.
    cbn zeta in Hv.
    destruct (forallb _ (differences xs)) eqn:Hall; [|discriminate Hv].
    exact (proj1 (forallb_differences _ xs) Hall).
  - intros (Hlen & Hnum & Hstep). unfold array_of.
    rewrite validateSequence_numbers by assumption. cbn zeta.
    rewrite (proj2 (forallb_differences _ xs) Hstep). reflexivity.
Qed.

Lemma valid_numbers_difference (xs : list number) (this : EchoChamber) :
  isValid (fst (validateSequence (array_of xs) this)) = true ->
  difference (fst (validateSequence (array_of xs) this)) =
    Some (sub (nth 1 xs NaN) (nth 0 xs NaN)).
Proof.
  intros Hv. pose proof Hv as Hv'.
  apply valid_numbers_iff in Hv'. destruct Hv' as (Hlen & Hnum & _).
  unfold array_of in *. rewrite validateSequence_numbers in Hv |- * by assumption.
  cbn zeta in Hv |- *.
  destruct (forallb _ (differences xs)); [reflexivity|discriminate Hv].
Qed.

End Shapes.

(** X14: a prefix of at least two elements of a valid array is valid, with
    the same [difference]; so an array that starts with an invalid prefix
    of numbers can never be made valid by appending elements. *)
Theorem valid_prefix (xs ys : list number) (this : EchoChamber) :
  (2 <= List.length xs)%nat ->
  isValid (fst (validateSequence (array_of (xs ++ ys)) this)) = true ->
  isValid (fst (validateSequence (array_of xs) this)) = true /\
  difference (fst (validateSequence (array_of xs) this)) =
    difference (fst (validateSequence (array_of (xs ++ ys)) this)).
Proof.
  intros Hlen Hv.
  assert (Hx : isValid (fst (validateSequence (array_of xs) this)) = true).
  { apply valid_numbers_iff in Hv. destruct Hv as (_ & Hnum & Hstep).
    apply valid_numbers_iff. split; [exact Hlen|]. split.
    - rewrite forallb_app in Hnum. now apply andb_true_iff in Hnum.
    - intros i Hi. specialize (Hstep i).
      rewrite !app_nth1 in Hstep by lia.
      apply Hstep. rewrite length_app. lia. }
  split; [exact Hx|].
  rewrite !valid_numbers_difference by assumption.
  rewrite !app_nth1 by lia. reflexivity.
Qed.

Lemma valid_prefix_witness :
  isValid (fst (validateSequence (array_of (ints [3; 6; 9]%Z))
                  new_EchoChamber)) = true /\
  difference (fst (validateSequence (array_of (ints [3; 6; 9]%Z))
                     new_EchoChamber)) =
    difference (fst (validateSequence
                       (array_of (ints [3; 6; 9]%Z ++ ints [12; 15]%Z))
                       new_EchoChamber)).
Proof.
  apply (valid_prefix (ints [3; 6; 9]%Z) (ints [12; 15]%Z) new_EchoChamber).
  - simpl. lia.
  - vm_compute. reflexivity.
Defined.

Section Reversal.

Lemma binary_round_aux_neg (s : bool) (m e : Z) (l : location) :
  binary_round_aux prec emax (negb s) m e l =
  neg (binary_round_aux prec emax s m e l).
Proof.
  unfold binary_round_aux.
  destruct (shr_fexp prec emax m e l) as [mrs1 e1].
  destruct (shr_fexp prec emax _ e1 loc_Exact) as [mrs2 e2].
  destruct (shr_m mrs2); [reflexivity| |reflexivity].
  destruct (e2 <=? emax - prec)%Z; reflexivity.
Qed.

Lemma binary_normalize_neg (p : positive) (e : Z) :
  binary_normalize prec emax (Zneg p) e false =
  neg (binary_normalize prec emax (Zpos p) e false).
Proof.
  cbn [binary_normalize]. unfold binary_round.
  destruct (shl_align p e _) as [mz ez].
  exact (binary_round_aux_neg false (Zpos mz) ez loc_Exact).
Qed.

Lemma neg_neg (x : number) : neg (neg x) = x.
Proof. destruct x; simpl; rewrite ?negb_involutive; reflexivity. Qed.

Lemma is_nan_neg (x : number) : is_nan (neg x) = is_nan x.
Proof. destruct x; reflexivity. Qed.

(** [===] is kept by negation on both sides. *)
Lemma strict_eq_neg (x y : number) :
  strict_eq x y = true -> strict_eq (neg x) (neg y) = true.
Proof.
  intros H. destruct (strict_eq_inv _ _ H) as [[-> Hn]|(s1 & s2 & -> & ->)].
  - apply strict_eq_refl. now rewrite is_nan_neg.
  - reflexivity.
Qed.

(** [b - a] is strictly equal to [-(a - b)]. *)
Lemma sub_swap (a b : number) :
  is_nan (sub a b) = false -> strict_eq (sub b a) (neg (sub a b)) = true.
Proof.
  destruct a as [sa|sa| |sa ma ea], b as [sb|sb| |sb mb eb]; intros Hn;
    unfold sub in Hn; cbn [SFsub is_nan] in Hn; try discriminate Hn;
    unfold sub; cbn [SFsub].
  - destruct sa, sb; reflexivity.
  - destruct sb; reflexivity.
  - unfold neg. cbn [SFopp]. rewrite negb_involutive.
    apply strict_eq_refl. reflexivity.
  - destruct sa; reflexivity.
  - destruct sa, sb; try discriminate Hn; reflexivity.
  - destruct sa; reflexivity.
  - apply strict_eq_refl. reflexivity.
  - destruct sb; reflexivity.
  - rewrite (Z.min_comm eb ea).
    set (ez := Z.min ea eb).
    set (A := cond_Zopp sa (Zpos (fst (shl_align ma ea ez)))).
    set (B := cond_Zopp sb (Zpos (fst (shl_align mb eb ez)))).
    replace (Z.sub B A) with (Z.opp (Z.sub A B)) by lia.
    destruct (Z.sub A B) as [|p|p]; cbn [Z.opp].
    + reflexivity.
    + rewrite binary_normalize_neg. apply strict_eq_refl.
      rewrite is_nan_neg. apply binary_normalize_not_nan.
    + rewrite (binary_normalize_neg p ez), neg_neg. apply strict_eq_refl.
      apply binary_normalize_not_nan.
Qed.

Lemma valid_rev_forward (xs : list number) (this : EchoChamber) :
  isValid (fst (validateSequence (array_of xs) this)) = true ->
  isValid (fst (validateSequence (array_of (rev xs)) this)) = true /\
  strict_eq (sub (nth 1 (rev xs) NaN) (nth 0 (rev xs) NaN))
            (neg (sub (nth 1 xs NaN) (nth 0 xs NaN))) = true.
Proof.
  intros Hv. apply valid_numbers_iff in Hv. destruct Hv as (Hlen & Hnum & Hstep).
  assert (E : forall i, (1 <= i < List.length xs)%nat ->
            strict_eq (sub (nth i (rev xs) NaN) (nth (i - 1) (rev xs) NaN))
                      (neg (sub (nth 1 xs NaN) (nth 0 xs NaN))) = true).
  { intros i Hi. rewrite !rev_nth by lia.
    pose proof (Hstep (List.length xs - i)%nat ltac:(lia)) as Hj.
    replace (List.length xs - S i)%nat with (List.length xs - i - 1)%nat by lia.
    replace (List.length xs - S (i - 1))%nat with (List.length xs - i)%nat by lia.
    eapply strict_eq_trans.
    - apply sub_swap. exact (proj1 (strict_eq_not_nan _ _ Hj)).
    - apply strict_eq_neg, Hj. }
  split; [|apply E; lia].
  apply valid_numbers_iff. rewrite length_rev.
  split; [exact Hlen|]. split.
  - apply forallb_forall. intros x Hx. apply in_rev in Hx.
    rewrite forallb_forall in Hnum. now apply Hnum.
  - intros i Hi. eapply strict_eq_trans; [apply E, Hi|].
    apply strict_eq_sym, E. lia.
Qed.

End Reversal.

(** X15: an array of numbers is valid exactly when its reversal is, and the
    [difference] of the reversal is then strictly equal to the negated
    [difference] of the array. *)
Theorem valid_reversal (xs : list number) (this : EchoChamber) :
  isValid (fst (validateSequence (array_of (rev xs)) this)) =
    isValid (fst (validateSequence (array_of xs) this)) /\
  (isValid (fst (validateSequence (array_of xs) this)) = true ->
   exists d d',
     difference (fst (validateSequence (array_of xs) this)) = Some d /\
     difference (fst (validateSequence (array_of (rev xs)) this)) = Some d' /\
     strict_eq d' (neg d) = true).
Proof.
  split.
  - destruct (isValid (fst (validateSequence (array_of xs) this))) eqn:Hv.
    + apply (valid_rev_forward xs this Hv).
    + destruct (isValid (fst (validateSequence (array_of (rev xs)) this)))
        eqn:Hr; [|reflexivity].
      apply valid_rev_forward in Hr. rewrite rev_involutive in Hr.
      destruct Hr as [Hr _]. congruence.
  - intros Hv. destruct (valid_rev_forward xs this Hv) as [Hr He].
    eexists. eexists.
    rewrite !valid_numbers_difference by assumption.
    split; [reflexivity|]. split; [reflexivity|exact He].
Qed.

Example reversal_12_9_6_3 :
  fst (validateSequence (array_of (rev (ints demo_ints))) new_EchoChamber) =
    {| isValid := true; difference := Some (of_Z (-3));
       v_message := msg_valid |}.
Proof. vm_compute. reflexivity. Qed.

(** ** Predict mode of the console interface *)

Section PredictModeProperties.

Variable toLowerCase : string -> string.
Variable trim : string -> string.
Variable parseFloat : string -> number.

Lemma split_commas_nonempty (input : string) :
  (1 <= List.length (UI.split_commas input))%nat.
Proof.
  destruct input as [|c rest]; simpl; [lia|].
  destruct (Ascii.eqb c ","%char); simpl; [lia|].
  destruct (UI.split_commas rest); simpl; lia.
Qed.

(** Joining the pieces with commas gives the input back. *)
Lemma split_commas_join (input : string) :
  String.concat "," (UI.split_commas input) = input.
Proof.
  induction input as [|c rest IH]; [reflexivity|].
  pose proof (split_commas_nonempty rest) as Hne.
  cbn [UI.split_commas].
  destruct (Ascii.eqb_spec c ","%char) as [->|Hc].
  - destruct (UI.split_commas rest) as [|p ps]; [simpl in Hne; lia|].
    change (String.concat "," (EmptyString :: p :: ps))
      with (String.String ","%char (String.concat "," (p :: ps))).
    now rewrite IH.
  - destruct (UI.split_commas rest) as [|p ps]; [simpl in Hne; lia|].
    destruct ps as [|q qs].
    + simpl in IH |- *. now rewrite IH.
    + change (String.concat "," (String.String c p :: q :: qs))
        with (String.String c (String.concat "," (p :: q :: qs))).
      now rewrite IH.
Qed.

Lemma parse_pieces_numbers (pieces : list string) :
  forall parsed,
    UI.parse_pieces trim parseFloat pieces = inl parsed ->
    List.length parsed = List.length pieces /\
    forallb (fun x => negb (is_nan x)) parsed = true.
Proof.
  induction pieces as [|num rest IH]; intros parsed H; cbn in H.
  - injection H as <-. split; reflexivity.
  - destruct (is_nan (parseFloat (trim num))) eqn:Hn; [discriminate H|].
    destruct (UI.parse_pieces trim parseFloat rest) as [parsedRest|piece];
      [|discriminate H].
    injection H as <-. destruct (IH parsedRest eq_refl) as [Hl Hf].
    cbn. rewrite Hl, Hn, Hf. split; reflexivity.
Qed.

Lemma parse_pieces_error (pieces : list string) :
  forall piece,
    UI.parse_pieces trim parseFloat pieces = inr piece ->
    exists num, In num pieces /\ piece = trim num /\
                is_nan (parseFloat piece) = true.
Proof.
  induction pieces as [|num rest IH]; intros piece H; cbn in H;
    [discriminate H|].
  destruct (is_nan (parseFloat (trim num))) eqn:Hn.
  - injection H as <-. exists num. split; [left; reflexivity|]. split; trivial.
  - destruct (UI.parse_pieces trim parseFloat rest) as [parsedRest|piece'];
      [discriminate H|].
    injection H as <-. destruct (IH piece' eq_refl) as (n & Hin & Hp & Hnan).
    exists n. split; [right; exact Hin|]. split; assumption.
Qed.

(** On a non-empty array of numbers other than NaN, only two checks of
    [validateSequence] can fail. *)
Lemma predictNext_numbers (xs : list number) (now : string)
  (this : EchoChamber) :
  forallb (fun x => negb (is_nan x)) xs = true ->
  let r := fst (predictNext (array_of xs) now this) in
  success r = true \/
  ((List.length xs < 2)%nat /\ p_message r = Text msg_too_short) \/
  ((2 <= List.length xs)%nat /\ p_message r = Text msg_not_arithmetic).
Proof.
  intros Hnum. cbn zeta. unfold predictNext.
  pose proof (validateSequence_this (array_of xs) this) as Ht.
  destruct (validateSequence (array_of xs) this) as [v t] eqn:E.
  cbn [snd] in Ht. subst t. pose proof (f_equal fst E) as Hv. cbn [fst] in Hv.
  destruct (Nat.ltb_spec (List.length xs) 2) as [Hlt|Hge].
  - right. left. split; [exact Hlt|].
    unfold validateSequence, array_of in Hv. cbn [fst isArray negb spread] in Hv.
    rewrite length_map in Hv. apply Nat.ltb_lt in Hlt. rewrite Hlt in Hv.
    subst v. reflexivity.
  - unfold array_of in Hv. rewrite validateSequence_numbers in Hv by assumption.
    cbn zeta in Hv. destruct (forallb _ (differences xs)); subst v.
    + left. reflexivity.
    + right. right. split; [exact Hge|reflexivity].
Qed.

End PredictModeProperties.

(** X16: in predict mode, whatever [toLowerCase], [trim] and [parseFloat]
    do: either some comma-separated piece of the input does not parse
    ([parseFloat] of the trimmed piece is NaN) and the chamber is left
    untouched, or [predictNext] is called on a non-empty array of numbers
    none of which is NaN, so that the prediction succeeds or fails with one
    of two messages only: too short (a single number) or not an arithmetic
    progression. *)
Theorem predictMode_outcome
  (toLowerCase trim : string -> string) (parseFloat : string -> number)
  (input now : string) (this : UI.EchoChamberUI) :
  match UI.predictMode toLowerCase trim parseFloat input now this with
  | (UI.Parse_error piece, this') =>
      this' = this /\
      exists num, In num (UI.split_commas input) /\ piece = trim num /\
                  is_nan (parseFloat piece) = true
  | (UI.Result r, this') =>
      exists xs,
        (r, UI.chamber this') = predictNext (array_of xs) now (UI.chamber this) /\
        (1 <= List.length xs)%nat /\
        forallb (fun x => negb (is_nan x)) xs = true /\
        (success r = true \/
         ((List.length xs < 2)%nat /\ p_message r = Text msg_too_short) \/
         ((2 <= List.length xs)%nat /\ p_message r = Text msg_not_arithmetic))
  end.
Proof.
  unfold UI.predictMode.
  destruct (String.eqb (toLowerCase input) "demo").
  - destruct (predictNext _ now (UI.chamber this)) as [r c] eqn:E.
    exists (map of_Z [3; 6; 9; 12]%Z). unfold array_of. rewrite E.
    split; [reflexivity|]. split; [simpl; lia|]. split; [reflexivity|].
    pose proof (predictNext_numbers (map of_Z [3; 6; 9; 12]%Z) now
                  (UI.chamber this) eq_refl) as H.
    unfold array_of in H. rewrite E in H. exact H.
  - destruct (UI.parse_pieces trim parseFloat (UI.split_commas input))
      as [parsed|piece] eqn:Hp.
    + destruct (parse_pieces_numbers trim parseFloat _ _ Hp) as [Hl Hf].
      destruct (predictNext _ now (UI.chamber this)) as [r c] eqn:E.
      exists parsed. unfold array_of. rewrite E.
      split; [reflexivity|]. split.
      * rewrite Hl. apply split_commas_nonempty.
      * split; [exact Hf|].
        pose proof (predictNext_numbers parsed now (UI.chamber this) Hf) as H.
        unfold array_of in H. rewrite E in H. exact H.
    + split; [reflexivity|].
      exact (parse_pieces_error trim parseFloat _ _ Hp).
Qed.
